(** * Disease model of [sims/simulationTwo/diseaseModel.js]

    A shallow embedding of the population-update engine
    ([createPopulation], [updatePopulation], [computeStatistics]) and the
    properties of it that the specification states.

    Modelling conventions.
    - A JavaScript number that holds a probability or a position is an IEEE
      binary64 value: Rocq's primitive [float], whose operations are the
      very operations of the JavaScript engine.  [%], [Math.floor] and the
      use of a number as an array index have no primitive; they are written
      out on the decoded value ([Prim2SF]) in [Module JsNumber].
    - The counters [daysExposed] and [daysInfected] only ever receive [0] and
      [+= 1]: they are [nat].  The two time parameters are integers that the
      caller chooses freely: they are [Z].
    - [state] is the JavaScript string.
    - The population is an array of distinct objects ([createPopulation]
      pushes a fresh object literal per index, and nothing else builds a
      population), so the identity of an individual is its position in the
      array: [newExposures] holds positions, and a mutation of an individual
      is an update of the list at its position.
    - [Math.random()] is an oracle [random : nat -> float]; every function
      that draws takes the number of draws made so far and returns the new
      count.
    - The [size] of a population to create is the number the caller passes,
      an integer or not; the loop that fills the array compares its counter
      with it. *)

From Stdlib Require Import ZArith Floats Uint63 Lia.
From stdpp Require Import base list strings.

Set Warnings "-inexact-float".

Local Open Scope string_scope.
Local Open Scope list_scope.

(** ** JavaScript numbers *)

Module JsNumber.

(** An array length or a loop counter as a number (exact below 2^53; an
    array has fewer than 2^32 elements). *)
Definition of_nat (n : nat) : float :=
  PrimFloat.of_uint63 (Uint63.of_Z (Z.of_nat n)).

(** A non-negative integer below 2^53 placed at binary exponent [e]. *)
Definition scaled (r e : Z) : float :=
  Z.ldexp (PrimFloat.of_uint63 (Uint63.of_Z r)) e.

(** [n % d]: the sign of the dividend, magnitude [|n| - |d| * trunc(|n|/|d|)],
    computed exactly. *)
Definition rem (n d : float) : float :=
  match Prim2SF n, Prim2SF d with
  | S754_nan, _ | _, S754_nan => nan
  | S754_infinity _, _ => nan
  | _, S754_zero _ => nan
  | _, S754_infinity _ => n
  | S754_zero _, _ => n
  | S754_finite sn mn en, S754_finite _ md ed =>
      let e := Z.min en ed in
      let r := ((Z.pos mn * 2 ^ (en - e)) mod (Z.pos md * 2 ^ (ed - e)))%Z in
      if sn then PrimFloat.opp (scaled r e) else scaled r e
  end.

(** [Math.floor]. *)
Definition floor (a : float) : float :=
  match Prim2SF a with
  | S754_finite s m e =>
      if (0 <=? e)%Z then a
      else
        let q := ((if s then Z.neg m else Z.pos m) / 2 ^ (- e))%Z in
        if (q <? 0)%Z then PrimFloat.opp (scaled (- q) 0) else scaled q 0
  | _ => a
  end.

(** The integer a number denotes, when it is a non-negative integer:
    the only numbers that name an array element. *)
Definition to_index (a : float) : option Z :=
  match Prim2SF a with
  | S754_zero _ => Some 0%Z
  | S754_finite false m e =>
      if (0 <=? e)%Z then Some (Z.pos m * 2 ^ e)%Z
      else if (Z.pos m mod 2 ^ (- e) =? 0)%Z
           then Some (Z.pos m / 2 ^ (- e))%Z
           else None
  | _ => None
  end.

(** [arr[a]]: the position read and the element there, [None] for
    [undefined]. *)
Definition get {A : Type} (arr : list A) (a : float) : option (nat * A) :=
  match to_index a with
  | Some z =>
      if (z <? Z.of_nat (length arr))%Z
      then match arr !! Z.to_nat z with
           | Some v => Some (Z.to_nat z, v)
           | None => None
           end
      else None
  | None => None
  end.

End JsNumber.

(** ** The loop that fills an array

    [for (let i = 0; i < size; i++) { population.push(make(i)); }]: the
    counter is compared with the number [size] before each push.  An array
    holds at most 2^32 - 1 elements and the push after them throws a
    [RangeError]; the loop is therefore run for at most 2^32 tests, written
    as 32 doublings. *)

(** [body], again and again until it answers on the right, at most
    [2 ^ depth] times. *)
Fixpoint repeatUpTo {St R : Type} (depth : nat) (body : St -> St + R) (s : St)
    : St + R :=
  match depth with
  | 0 => body s
  | S d =>
      match repeatUpTo d body s with
      | inl s' => repeatUpTo d body s'
      | inr r => inr r
      end
  end.

(** One test of the loop at counter [st.1], the array being [st.2]. *)
Definition pushNext {A : Type} (make : nat -> A) (size : float)
    (st : nat * list A) : (nat * list A) + list A :=
  if PrimFloat.ltb (JsNumber.of_nat st.1) size
  then inl (S st.1, st.2 ++ [make st.1])
  else inr st.2.

(** The array when the loop ends, [None] when the array overflows. *)
Definition pushLoop {A : Type} (make : nat -> A) (size : float) : option (list A) :=
  match repeatUpTo 32 (pushNext make size) (0, []) with
  | inr population => Some population
  | inl _ => None
  end.

(** ** Data model *)

Record individual : Type := mkIndividual {
  id : nat;
  x : float;
  y : float;
  state : string;
  daysExposed : nat;
  daysInfected : nat;
  quarantined : bool;
  newlyExposed : bool;
  newlyInfected : bool
}.

Abbreviation population := (list individual).

Record parameters : Type := mkParameters {
  infectionRate : float;
  incubationTime : Z;
  recoveryTime : Z;
  reinfectionProbability : float;
  quarantineThreshold : float;
  quarantineReductionFactor : float
}.

Record statistics : Type := mkStatistics {
  round : nat;
  healthy : nat;
  exposed : nat;
  infected : nat;
  recovered : nat
}.

(** The failures the modules can produce: a property written on
    [undefined], an array grown past its capacity. *)
Inductive error : Type := TypeError | RangeError.

(** The values that [diseaseModel.js] lists under the name
    [defaultSimulationParameters].  The literal stands inside a comment (the
    block opened above "Authors" is closed only in front of
    [createPopulation]), so the module has no such export: the values are
    sample parameters here, and nothing more. *)
Definition listedParameters : parameters :=
  {| infectionRate := 0.3%float;
     incubationTime := 5;
     recoveryTime := 14;
     reinfectionProbability := 0.01%float;
     quarantineThreshold := 0.1%float;
     quarantineReductionFactor := 0.3%float |}.

(** Field assignments [p.f = v]. *)
Definition set_state (v : string) (p : individual) : individual :=
  mkIndividual (id p) (x p) (y p) v (daysExposed p) (daysInfected p)
    (quarantined p) (newlyExposed p) (newlyInfected p).
Definition set_daysExposed (v : nat) (p : individual) : individual :=
  mkIndividual (id p) (x p) (y p) (state p) v (daysInfected p)
    (quarantined p) (newlyExposed p) (newlyInfected p).
Definition set_daysInfected (v : nat) (p : individual) : individual :=
  mkIndividual (id p) (x p) (y p) (state p) (daysExposed p) v
    (quarantined p) (newlyExposed p) (newlyInfected p).
Definition set_quarantined (v : bool) (p : individual) : individual :=
  mkIndividual (id p) (x p) (y p) (state p) (daysExposed p) (daysInfected p)
    v (newlyExposed p) (newlyInfected p).
Definition set_newlyExposed (v : bool) (p : individual) : individual :=
  mkIndividual (id p) (x p) (y p) (state p) (daysExposed p) (daysInfected p)
    (quarantined p) v (newlyInfected p).
Definition set_newlyInfected (v : bool) (p : individual) : individual :=
  mkIndividual (id p) (x p) (y p) (state p) (daysExposed p) (daysInfected p)
    (quarantined p) (newlyExposed p) v.

(** [p.state === s] *)
Definition in_state (s : string) (p : individual) : bool := String.eqb (state p) s.

(** [population.filter(p => p.state === s).length] *)
Definition count_state (s : string) (pop : population) : nat :=
  length (List.filter (in_state s) pop).

(** ** Sample data *)

(** An individual with its flags down. *)
Definition person (i : nat) (px py : float) (s : string) (dE dI : nat) : individual :=
  mkIndividual i px py s dE dI false false false.

(** [Math.random()] returning 0.5 at every call. *)
Definition coin : nat -> float := fun _ => 0.5%float.

(** Quarantine from 10% of infected on, contagion at 0.75 under quarantine. *)
Definition sureContagion : parameters :=
  {| infectionRate := 1%float;
     incubationTime := 5;
     recoveryTime := 14;
     reinfectionProbability := 0%float;
     quarantineThreshold := 0.1%float;
     quarantineReductionFactor := 0.75%float |}.

(** An infected individual and a healthy one, 5 units apart. *)
Definition neighbours : population :=
  [person 0 0%float 0%float "infected" 0 0; person 1 5%float 0%float "healthy" 0 0].

(** A healthy individual and, 5 units away, one whose incubation starts. *)
Definition incubating : population :=
  [person 0 0%float 0%float "healthy" 0 0; person 1 5%float 0%float "exposed" 0 0].

(** The default parameters with an incubation of one round. *)
Definition quickIncubation : parameters :=
  {| infectionRate := 0.3%float;
     incubationTime := 1;
     recoveryTime := 14;
     reinfectionProbability := 0.01%float;
     quarantineThreshold := 0.1%float;
     quarantineReductionFactor := 0.3%float |}.

(** The 2 x 2 grid with its third individual as patient zero: what
    [createPopulation(4)] returns when [Math.random()] gives 0.5. *)
Definition fourOnGrid : population :=
  [person 0 0%float 0%float "healthy" 0 0; person 1 50%float 0%float "healthy" 0 0;
   person 2 0%float 50%float "infected" 0 0; person 3 50%float 50%float "healthy" 0 0].

(** A recovered individual and a healthy one. *)
Definition convalescent : population :=
  [person 0 0%float 0%float "recovered" 0 0; person 1 5%float 0%float "healthy" 0 0].

(** Probabilities above 1, an incubation of zero rounds, a negative
    recovery time. *)
Definition outOfRange : parameters :=
  {| infectionRate := 2%float;
     incubationTime := 0;
     recoveryTime := -1;
     reinfectionProbability := 1.5%float;
     quarantineThreshold := 0.1%float;
     quarantineReductionFactor := 0.75%float |}.

(** The default parameters with an infection rate of zero and no
    reinfection. *)
Definition noContagion : parameters :=
  {| infectionRate := 0%float;
     incubationTime := 5;
     recoveryTime := 14;
     reinfectionProbability := 0%float;
     quarantineThreshold := 0.1%float;
     quarantineReductionFactor := 0.3%float |}.

(** ** The ring model, [sims/simulationOne/diseaseModel.js]

    The first simulation of the repository: individuals are infected or not,
    each one meets its two neighbours in the array, taken as a ring.  The
    same conventions hold; the parameter object is mutated by
    [updatePopulation], which therefore returns it too. *)

Module SimulationOne.

Record person : Type := mkPerson {
  id : nat;
  x : float;
  y : float;
  infected : bool;
  daysInfected : nat
}.

Record parameters : Type := mkParameters {
  infectionChance : float;
  recoveryTime : Z
}.

(** What [computeStatistics] returns: [{ round, infected }]. *)
Record statistics : Type := mkStatistics {
  round : nat;
  infectedCount : nat
}.

Definition defaultSimulationParameters : parameters :=
  {| infectionChance := 70%float; recoveryTime := 20 |}.

Definition set_infected (v : bool) (p : person) : person :=
  mkPerson (id p) (x p) (y p) v (daysInfected p).
Definition set_daysInfected (v : nat) (p : person) : person :=
  mkPerson (id p) (x p) (y p) (infected p) v.
Definition set_infectionChance (v : float) (params : parameters) : parameters :=
  mkParameters v (recoveryTime params).

(** The text that opens [updateIndividual] and that the quarantine branch
    of [updatePopulation] repeats: an infected person ages by a day and
    recovers when [recoveryTime] is reached. *)
Definition recoverIfDue (params : parameters) (p : person) : person :=
  if infected p then
    let p1 := set_daysInfected (daysInfected p + 1) p in
    if (recoveryTime params <=? Z.of_nat (daysInfected p1))%Z
    then set_daysInfected 0 (set_infected false p1)
    else p1
  else p.

(** A sick person next to a healthy one, and the same two in good health. *)
Definition pair_with_a_case : list person :=
  [mkPerson 0 0%float 0%float true 0; mkPerson 1 50%float 0%float false 0].
Definition pair_in_good_health : list person :=
  [mkPerson 0 0%float 0%float false 0; mkPerson 1 50%float 0%float false 0].

(** The 2 x 2 grid with its third person as patient zero. *)
Definition four_on_grid : list person :=
  [mkPerson 0 0%float 0%float false 0; mkPerson 1 50%float 0%float false 0;
   mkPerson 2 0%float 50%float true 0; mkPerson 3 50%float 50%float false 0].

(** One sick person among three: fewer than half. *)
Definition trio_with_a_case : list person :=
  [mkPerson 0 0%float 0%float true 0; mkPerson 1 50%float 0%float false 0;
   mkPerson 2 0%float 50%float false 0].

(** The fields that no assignment of the ring model targets. *)
Definition fixedFields (p : person) : nat * float * float := (id p, x p, y p).

(** The counter of a person that is not infected is at zero. *)
Definition counter_at_rest (p : person) : Prop :=
  infected p = false -> daysInfected p = 0.

Section Model.

Variable random : nat -> float.

Definition newPerson (sideSize : float) (i : nat) : person :=
  {| id := i;
     x := (100 * JsNumber.rem (JsNumber.of_nat i) sideSize / sideSize)%float;
     y := (100 * JsNumber.floor (JsNumber.of_nat i / sideSize) / sideSize)%float;
     infected := false;
     daysInfected := 0 |}.

Definition createPopulation (size : float) (k : nat) : (error + list person) * nat :=
  let sideSize := PrimFloat.sqrt size in
  match pushLoop (newPerson sideSize) size with
  | Some pop =>
      match JsNumber.get pop (JsNumber.floor (random k * size)%float) with
      | Some (i, patientZero) => (inr (<[i := set_infected true patientZero]> pop), S k)
      | None => (inl TypeError, S k)
      end
  | None => (inl RangeError, k)
  end.

(** The loop of [updateIndividual] over the contacts of the person at
    position [i]; a contact is the position of the object that the caller
    read from the array (both lookups succeed at the positions that
    [updatePopulation] passes).  The draw is made when the contact is
    infected, before the person itself is looked at; an infection ends the
    loop. *)
Fixpoint contactLoop (i : nat) (contacts : list nat) (params : parameters)
    (pop : list person) (k : nat) : list person * nat :=
  match contacts with
  | [] => (pop, k)
  | c :: rest =>
      match pop !! c, pop !! i with
      | Some contact, Some p =>
          if infected contact then
            if PrimFloat.ltb (random k * 100)%float (infectionChance params) then
              if negb (infected p)
              then (<[i := set_daysInfected 1 (set_infected true p)]> pop, S k)
              else contactLoop i rest params pop (S k)
            else contactLoop i rest params pop (S k)
          else contactLoop i rest params pop k
      | _, _ => (pop, k)
      end
  end.

Definition updateIndividual (i : nat) (contacts : list nat) (params : parameters)
    (pop : list person) (k : nat) : list person * nat :=
  contactLoop i contacts params (alter (recoverIfDue params) i pop) k.

(** One iteration of the last loop of [updatePopulation]: the contacts are
    the next and the previous positions of a ring of [n]; [(i - 1 + n)] is
    computed on numbers, so it is [i + n - 1]. *)
Definition ringStep (params : parameters) (n : nat) (st : list person * nat) (i : nat)
    : list person * nat :=
  updateIndividual i [(i + 1) mod n; (i + n - 1) mod n] params st.1 st.2.

Definition updatePopulation (pop : list person) (params : parameters) (k : nat)
    : list person * parameters * nat :=
  let infectedCount := length (List.filter infected pop) in
  let totalPopulation := length pop in
  let inQuarantine :=
    PrimFloat.leb 0.5 (JsNumber.of_nat infectedCount / JsNumber.of_nat totalPopulation) in
  let endQuarantine :=
    PrimFloat.eqb (JsNumber.of_nat infectedCount / JsNumber.of_nat totalPopulation) 0.01 in
  let params1 :=
    if negb inQuarantine then
      if PrimFloat.ltb (JsNumber.of_nat infectedCount)
           (JsNumber.of_nat totalPopulation * 0.5)
      then set_infectionChance 90 params
      else set_infectionChance 50 params
    else params in
  if inQuarantine then (recoverIfDue params1 <$> pop, params1, k)
  else
    let inQuarantine' := if endQuarantine then false else inQuarantine in
    let '(pop', k') :=
      fold_left (ringStep params1 (length pop)) (seq 0 (length pop)) (pop, k) in
    (pop', params1, k').

Definition computeStatistics (pop : list person) (round : nat) : statistics :=
  {| round := round; infectedCount := length (List.filter infected pop) |}.

(** The populations that the driver of this simulation can hold. *)
Inductive observable : list person -> Prop :=
| observable_created size k pop k' :
    createPopulation size k = (inr pop, k') -> observable pop
| observable_updated pop params k :
    observable pop -> observable (updatePopulation pop params k).1.1.

End Model.

End SimulationOne.

Section Engine.

(** The successive values of [Math.random()]. *)
Variable random : nat -> float.

(** *** createPopulation *)

(** The object literal pushed for index [i]. *)
Definition newIndividual (sideSize : float) (i : nat) : individual :=
  {| id := i;
     x := (100 * JsNumber.rem (JsNumber.of_nat i) sideSize / sideSize)%float;
     y := (100 * JsNumber.floor (JsNumber.of_nat i / sideSize) / sideSize)%float;
     state := "healthy";
     daysExposed := 0;
     daysInfected := 0;
     quarantined := false;
     newlyExposed := false;
     newlyInfected := false |}.

Definition createPopulation (size : float) (k : nat) : (error + population) * nat :=
  let sideSize := PrimFloat.sqrt size in
  match pushLoop (newIndividual sideSize) size with
  | Some pop =>
      match JsNumber.get pop (JsNumber.floor (random k * size)%float) with
      | Some (i, patientZero) =>
          (inr (<[i := set_daysInfected 0 (set_state "infected" patientZero)]> pop), S k)
      | None => (inl TypeError, S k)
      end
  | None => (inl RangeError, k)
  end.

(** *** updatePopulation *)

Definition infectedCount (pop : population) : nat := count_state "infected" pop.

Definition fractionInfected (pop : population) : float :=
  (JsNumber.of_nat (infectedCount pop) / JsNumber.of_nat (length pop))%float.

(** [fractionInfected >= params.quarantineThreshold] *)
Definition quarantineActive (pop : population) (params : parameters) : bool :=
  PrimFloat.leb (quarantineThreshold params) (fractionInfected pop).

Definition effectiveInfectionRate (pop : population) (params : parameters) : float :=
  if quarantineActive pop params
  then (infectionRate params * quarantineReductionFactor params)%float
  else infectionRate params.

Definition infectionDistance : float := 6%float.

(** [Math.sqrt(dx * dx + dy * dy) <= infectionDistance] *)
Definition inContact (p other : individual) : bool :=
  let dx := (x p - x other)%float in
  let dy := (y p - y other)%float in
  PrimFloat.leb (PrimFloat.sqrt (dx * dx + dy * dy)%float) infectionDistance.

(** The inner loop [for (let other of population)] for one infected [p]:
    [others] is what is left to visit, [j] the position of its head. *)
Fixpoint scanHealthy (rate : float) (p : individual) (others : population)
    (j : nat) (newExposures : list nat) (k : nat) : list nat * nat :=
  match others with
  | [] => (newExposures, k)
  | other :: rest =>
      if in_state "healthy" other then
        if inContact p other then
          if PrimFloat.ltb (random k) rate then
            if bool_decide (j ∈ newExposures)
            then scanHealthy rate p rest (S j) newExposures (S k)
            else scanHealthy rate p rest (S j) (newExposures ++ [j]) (S k)
          else scanHealthy rate p rest (S j) newExposures (S k)
        else scanHealthy rate p rest (S j) newExposures k
      else scanHealthy rate p rest (S j) newExposures k
  end.

(** The state of the exposure pass: the population (mutated in place),
    the pending exposures, the number of draws. *)
Abbreviation exposure_state := (list individual * list nat * nat)%type.

(** One iteration of the outer loop, at position [i]. *)
Definition exposeFrom (active : bool) (rate : float)
    (st : exposure_state) (i : nat) : exposure_state :=
  let '(pop, newExposures, k) := st in
  match pop !! i with
  | Some p =>
      if in_state "infected" p then
        let p' := set_quarantined active p in
        let pop' := <[i := p']> pop in
        let '(newExposures', k') := scanHealthy rate p' pop' 0 newExposures k in
        (pop', newExposures', k')
      else st
  | None => st
  end.

Definition exposurePass (active : bool) (rate : float)
    (pop : population) (k : nat) : exposure_state :=
  fold_left (exposeFrom active rate) (seq 0 (length pop)) (pop, [], k).

(** The body of [newExposures.forEach]. *)
Definition markExposed (person : individual) : individual :=
  set_newlyExposed true (set_daysExposed 0 (set_state "exposed" person)).

Definition commitExposures (newExposures : list nat) (pop : population) : population :=
  fold_left (fun acc j => alter markExposed j acc) newExposures pop.

(** The body of the last loop, for one individual. *)
Definition advanceIndividual (params : parameters) (p : individual) (k : nat)
    : individual * nat :=
  if in_state "exposed" p then
    let p1 := if newlyExposed p then set_newlyExposed false p else p in
    let p2 := set_daysExposed (daysExposed p1 + 1) p1 in
    if (incubationTime params <=? Z.of_nat (daysExposed p2))%Z then
      (set_newlyInfected true
         (set_daysInfected 0 (set_daysExposed 0 (set_state "infected" p2))), k)
    else (p2, k)
  else if in_state "infected" p then
    let p1 := if newlyInfected p then set_newlyInfected false p else p in
    let p2 := set_daysInfected (daysInfected p1 + 1) p1 in
    if (recoveryTime params <=? Z.of_nat (daysInfected p2))%Z then
      (set_quarantined false (set_daysInfected 0 (set_state "recovered" p2)), k)
    else (p2, k)
  else if in_state "recovered" p then
    if PrimFloat.ltb (random k) (reinfectionProbability params)
    then (set_state "healthy" p, S k)
    else (p, S k)
  else (p, k).

Fixpoint advancePass (params : parameters) (pop : population) (k : nat)
    : population * nat :=
  match pop with
  | [] => ([], k)
  | p :: rest =>
      let '(p', k') := advanceIndividual params p k in
      let '(rest', k'') := advancePass params rest k' in
      (p' :: rest', k'')
  end.

Definition updatePopulation (pop : population) (params : parameters) (k : nat)
    : population * nat :=
  let quarantine := quarantineActive pop params in
  let rate := effectiveInfectionRate pop params in
  let '(pop1, newExposures, k1) := exposurePass quarantine rate pop k in
  advancePass params (commitExposures newExposures pop1) k1.

(** *** computeStatistics *)

Definition computeStatistics (pop : population) (round : nat) : statistics :=
  {| round := round;
     healthy := count_state "healthy" pop;
     exposed := count_state "exposed" pop;
     infected := count_state "infected" pop;
     recovered := count_state "recovered" pop |}.

(** *** Auxiliary definitions for the proofs *)

(** Everything of an individual but its [quarantined] flag. *)
Definition core (p : individual) : individual := set_quarantined false p.

(** The fields that no assignment of the module targets. *)
Definition fixedFields (p : individual) : nat * float * float := (id p, x p, y p).

(** What the outer loop of the exposure pass does to one individual. *)
Definition markQuarantine (active : bool) (p : individual) : individual :=
  if in_state "infected" p then set_quarantined active p else p.

(** The outer loop of the exposure pass without the mutation: [ps] is what
    is left to visit, [whole] the population that each inner loop scans. *)
Fixpoint scanFrom (rate : float) (whole ps : population)
    (newExposures : list nat) (k : nat) : list nat * nat :=
  match ps with
  | [] => (newExposures, k)
  | p :: rest =>
      if in_state "infected" p then
        let '(newExposures', k') := scanHealthy rate p whole 0 newExposures k in
        scanFrom rate whole rest newExposures' k'
      else scanFrom rate whole rest newExposures k
  end.

(** The pending exposures of a round: [newExposures] when the exposure
    pass of [updatePopulation] ends. *)
Definition pendingExposures (pop : population) (params : parameters) (k : nat)
    : list nat :=
  (exposurePass (quarantineActive pop params)
     (effectiveInfectionRate pop params) pop k).1.2.

(** The population when the exposure pass of [updatePopulation] ends. *)
Definition afterExposurePass (pop : population) (params : parameters) (k : nat)
    : population :=
  (exposurePass (quarantineActive pop params)
     (effectiveInfectionRate pop params) pop k).1.1.

(** A whole round seen from one individual: [active] is the quarantine
    decision of the round, [pending] tells whether the individual is among
    the new exposures, [k] is the number of draws made when the last loop
    reaches it. *)
Definition roundOf (params : parameters) (active pending : bool) (k : nat)
    (p : individual) : individual :=
  let p1 := markQuarantine active p in
  let p2 := if pending then markExposed p1 else p1 in
  (advanceIndividual params p2 k).1.

(** The fields that the transitions of the model read and write. *)
Definition simulationFields (p : individual) : string * nat * nat * bool :=
  (state p, daysExposed p, daysInfected p, quarantined p).

(** The state is one of the four the model names. *)
Definition valid_state (p : individual) : Prop :=
  state p = "healthy" \/ state p = "exposed"
  \/ state p = "infected" \/ state p = "recovered".

(** The sum of the four counts of a statistics record. *)
Definition headcount (s : statistics) : nat :=
  healthy s + exposed s + infected s + recovered s.

(** The driver's [runTurn], [n] times. *)
Fixpoint runRounds (n : nat) (pop : population) (params : parameters) (k : nat)
    : population * nat :=
  match n with
  | 0 => (pop, k)
  | S n' =>
      let '(pop', k') := updatePopulation pop params k in
      runRounds n' pop' params k'
  end.

(** The contract of [Math.random()]: a number in [[0, 1)]. *)
Definition draws_in_unit_interval : Prop :=
  forall t, PrimFloat.leb 0 (random t) = true /\ PrimFloat.ltb (random t) 1 = true.

(** The counters as the specification states them: zero exactly when the
    individual is not in the corresponding state. *)
Definition counters_exact (p : individual) : Prop :=
  (daysExposed p = 0 <-> state p <> "exposed")
  /\ (daysInfected p = 0 <-> state p <> "infected").

(** The counters as the code keeps them: [daysInfected] is zero outside
    the state [infected], and may be zero inside it. *)
Definition counters_reset (p : individual) : Prop :=
  (daysExposed p = 0 <-> state p <> "exposed")
  /\ (state p <> "infected" -> daysInfected p = 0).

(** The populations that the driver can hold: what [createPopulation]
    returned, then what [updatePopulation] returns on them, with any
    parameters. *)
Inductive observable : population -> Prop :=
| observable_created size k pop k' :
    createPopulation size k = (inr pop, k') -> observable pop
| observable_updated pop params k :
    observable pop -> observable (updatePopulation pop params k).1.

(** The position that [createPopulation] draws for patient zero. *)
Definition patientZeroIndex (size : float) (k : nat) : option Z :=
  JsNumber.to_index (JsNumber.floor (random k * size)%float).

(** [n] is the number of pushes of the loop of [createPopulation]: the
    counter values below [n] are below [size], and [n] is not. *)
Definition pushes (size : float) (n : nat) : Prop :=
  (forall i, i < n -> PrimFloat.ltb (JsNumber.of_nat i) size = true)
  /\ PrimFloat.ltb (JsNumber.of_nat n) size = false.

(** *** Configurations that the specification calls invalid *)

Definition is_perfect_square (size : float) : bool :=
  let side := JsNumber.floor (PrimFloat.sqrt size) in
  PrimFloat.eqb (side * side) size.

Definition is_probability (v : float) : bool :=
  PrimFloat.leb 0 v && PrimFloat.leb v 1.

Definition parameters_in_range (params : parameters) : bool :=
  is_probability (infectionRate params)
  && is_probability (reinfectionProbability params)
  && is_probability (quarantineThreshold params)
  && is_probability (quarantineReductionFactor params)
  && (0 <? incubationTime params)%Z
  && (0 <? recoveryTime params)%Z.

(** *** The quarantine decision as the specification words it

    "compute [fractionInfected = count(infected) / size]. Quarantine is
    active for this round iff [fractionInfected >= quarantineThreshold].
    If active, [effectiveInfectionRate = infectionRate *
    quarantineReductionFactor]; otherwise [effectiveInfectionRate =
    infectionRate]." *)

(** [count(infected)]: the individuals whose state is [infected],
    counted one by one. *)
Fixpoint spec_countInfected (pop : population) : nat :=
  match pop with
  | [] => 0
  | p :: rest =>
      if String.string_dec (state p) "infected"
      then S (spec_countInfected rest) else spec_countInfected rest
  end.

(** [size]: the individuals, counted one by one. *)
Fixpoint spec_size (pop : population) : nat :=
  match pop with
  | [] => 0
  | _ :: rest => S (spec_size rest)
  end.

Definition spec_quarantineActive (pop : population) (params : parameters) : bool :=
  PrimFloat.leb (quarantineThreshold params)
    (JsNumber.of_nat (spec_countInfected pop) / JsNumber.of_nat (spec_size pop))%float.

Definition spec_effectiveInfectionRate (pop : population) (params : parameters) : float :=
  if spec_quarantineActive pop params
  then (infectionRate params * quarantineReductionFactor params)%float
  else infectionRate params.

(** *** The exposure pass as the specification words it

    "For every such infected individual, scan every healthy individual
    [...] if distance <= a fixed contact radius, draw one Bernoulli trial
    with success probability [effectiveInfectionRate]; on success, mark
    that healthy individual as newly exposed (pending set,
    deduplicated)." *)

(** The positions of the healthy individuals of [others] within the
    contact radius of [p]; [j] is the position of the head of [others]. *)
Fixpoint contactsOf (p : individual) (others : population) (j : nat) : list nat :=
  match others with
  | [] => []
  | other :: rest =>
      if in_state "healthy" other && inContact p other
      then j :: contactsOf p rest (S j)
      else contactsOf p rest (S j)
  end.

(** The targets of the trials of a round, one per infected individual of
    [ps] and healthy individual of [whole] in contact, in the order of the
    draws. *)
Fixpoint trialTargets (whole ps : population) : list nat :=
  match ps with
  | [] => []
  | p :: rest =>
      if in_state "infected" p
      then contactsOf p whole 0 ++ trialTargets whole rest
      else trialTargets whole rest
  end.

(** The targets whose trial succeeds, when each trial is a draw compared
    with [rate] and the first draw is number [k]. *)
Fixpoint successes (rate : float) (targets : list nat) (k : nat) : list nat :=
  match targets with
  | [] => []
  | j :: rest =>
      if PrimFloat.ltb (random k) rate
      then j :: successes rate rest (S k)
      else successes rate rest (S k)
  end.

(** *** Further notions for the properties of a round *)

(** The flags as the driver can see them: [quarantined] only on an infected
    individual, [newlyExposed] down, [newlyInfected] only on an individual
    that has just become infected. *)
Definition flags_consistent (p : individual) : Prop :=
  (quarantined p = true -> state p = "infected")
  /\ newlyExposed p = false
  /\ (newlyInfected p = true -> state p = "infected" /\ daysInfected p = 0).

(** The changes of state that one call of [updatePopulation] can make. *)
Definition stateStep (params : parameters) (s s' : string) : Prop :=
  s' = s
  \/ (s = "healthy" /\ s' = "exposed")
  \/ (s = "healthy" /\ s' = "infected" /\ (incubationTime params <= 1)%Z)
  \/ (s = "exposed" /\ s' = "infected")
  \/ (s = "infected" /\ s' = "recovered")
  \/ (s = "recovered" /\ s' = "healthy").

(** All fields of a freshly created individual but its state. *)
Definition pristine (p : individual) : Prop :=
  daysExposed p = 0 /\ daysInfected p = 0 /\ quarantined p = false
  /\ newlyExposed p = false /\ newlyInfected p = false.

(** *** The driver, [sims/simulationTwo/Simulation.jsx]

    The component holds six pieces of state; [runTurn] and
    [resetSimulation] are its two handlers that touch the population.  What
    [renderPatients] returns is kept as data: the warning, when there is one,
    and one marker per rendered individual. *)

Definition boxSize : float := 500%float.
Definition maxSize : nat := 1000.

Definition renderEmoji (p : individual) : string :=
  if newlyExposed p then "🤧"
  else if in_state "exposed" p then "😐"
  else if in_state "infected" p then (if quarantined p then "😷" else "🤢")
  else if in_state "recovered" p then "😌"
  else "😀".

(** The [div] of one individual: its [key], its three [data-patient-]
    attributes, the two lengths of its [translate], its text. *)
Record patientMarker : Type := mkPatientMarker {
  key : nat;
  patientId : nat;
  patientX : float;
  patientY : float;
  translateX : float;
  translateY : float;
  emoji : string
}.

(** The numbers of the warning "Only showing .. (..%) of .. patients": the
    percentage is the number handed to [toFixed(2)]. *)
Record subsetWarning : Type := mkSubsetWarning {
  shown : nat;
  percentage : float;
  total : nat
}.

Definition renderPatient (p : individual) : patientMarker :=
  {| key := id p;
     patientId := id p;
     patientX := x p;
     patientY := y p;
     translateX := (x p / 100 * boxSize)%float;
     translateY := (y p / 100 * boxSize)%float;
     emoji := renderEmoji p |}.

Definition renderPatients (pop : population) : option subsetWarning * list patientMarker :=
  let amRenderingSubset := Nat.ltb maxSize (length pop) in
  let popSize := length pop in
  let rendered := if Nat.ltb maxSize popSize then take maxSize pop else pop in
  (if amRenderingSubset
   then Some {| shown := maxSize;
                percentage := (JsNumber.of_nat maxSize * 100 / JsNumber.of_nat popSize)%float;
                total := popSize |}
   else None,
   renderPatient <$> rendered).








(** ** The loop that fills the array, and what createPopulation builds *)

Lemma repeatUpTo_pushNext {A : Type} (make : nat -> A) size depth : forall i l,
  match repeatUpTo depth (pushNext make size) (i, l) with
  | inl st =>
      exists m, st.1 = i + m /\ st.2 = l ++ (make <$> seq i m)
                /\ Z.of_nat m = (2 ^ Z.of_nat depth)%Z
                /\ forall j, i <= j < i + m ->
                             PrimFloat.ltb (JsNumber.of_nat j) size = true
  | inr l' =>
      exists m, l' = l ++ (make <$> seq i m)
                /\ (forall j, i <= j < i + m ->
                              PrimFloat.ltb (JsNumber.of_nat j) size = true)
                /\ PrimFloat.ltb (JsNumber.of_nat (i + m)) size = false
  end.
Proof.
  induction depth as [|d IH]; intros i l.
  - cbn [repeatUpTo]. unfold pushNext. cbn [fst snd].
    destruct (PrimFloat.ltb (JsNumber.of_nat i) size) eqn:Hlt.
    + exists 1. cbn [fst snd]. split; [lia|]. split; [reflexivity|].
      split; [reflexivity|].
      intros j Hj. now replace j with i by lia.
    + exists 0. rewrite Nat.add_0_r. cbn. rewrite app_nil_r.
      split; [reflexivity|]. split; [intros j Hj; lia | exact Hlt].
  - cbn [repeatUpTo]. pose proof (IH i l) as H1.
    destruct (repeatUpTo d (pushNext make size) (i, l)) as [[i1 l1]|l1].
    + destruct H1 as (m1 & Hi1 & Hl1 & Hm1 & Hlt1).
      cbn [fst snd] in Hi1, Hl1. subst i1 l1.
      pose proof (IH (i + m1) (l ++ (make <$> seq i m1))) as H2.
      destruct (repeatUpTo d (pushNext make size) _) as [st|l2].
      * destruct H2 as (m2 & Hi2 & Hl2 & Hm2 & Hlt2). exists (m1 + m2).
        split; [lia|]. split; [|split].
        -- now rewrite Hl2, seq_app, fmap_app, app_assoc.
        -- rewrite Nat2Z.inj_succ, Z.pow_succ_r by lia. lia.
        -- intros j Hj. destruct (Nat.lt_ge_cases j (i + m1));
             [apply Hlt1 | apply Hlt2]; lia.
      * destruct H2 as (m2 & Hl2 & Hlt2 & Hend). exists (m1 + m2).
        split; [now rewrite Hl2, seq_app, fmap_app, app_assoc|]. split.
        -- intros j Hj. destruct (Nat.lt_ge_cases j (i + m1));
             [apply Hlt1 | apply Hlt2]; lia.
        -- now rewrite Nat.add_assoc.
    + exact H1.
Qed.

(** When the loop ends, the array holds [make 0], [make 1], ... up to the
    first counter that is not below [size]. *)
Lemma pushLoop_spec {A : Type} (make : nat -> A) size l :
  pushLoop make size = Some l ->
  exists n, l = make <$> seq 0 n /\ pushes size n.
Proof.
  unfold pushLoop. pose proof (repeatUpTo_pushNext make size 32 0 []) as H.
  destruct (repeatUpTo 32 (pushNext make size) (0, [])) as [st|l']; [discriminate|].
  intros Hl. injection Hl as <-.
  destruct H as (m & -> & Hlt & Hend). exists m. split; [reflexivity|].
  split; [intros i Hi; apply Hlt; lia | exact Hend].
Qed.

(** The loop ends, with [n] pushes, when [n] is the first counter that is
    not below [size] and the array can hold [n] elements. *)
Lemma pushLoop_complete {A : Type} (make : nat -> A) size n :
  pushes size n -> (Z.of_nat n < 2 ^ 32)%Z ->
  pushLoop make size = Some (make <$> seq 0 n).
Proof.
  intros [Hbelow Hend] Hcap. unfold pushLoop.
  pose proof (repeatUpTo_pushNext make size 32 0 []) as H.
  destruct (repeatUpTo 32 (pushNext make size) (0, [])) as [st|l'].
  - destruct H as (m & _ & _ & Hm & Hlt). exfalso.
    assert (Hn : PrimFloat.ltb (JsNumber.of_nat n) size = true).
    { apply Hlt. change (Z.of_nat 32) with 32%Z in Hm. lia. }
    congruence.
  - destruct H as (m & -> & Hlt & Hm). f_equal.
    destruct (Nat.lt_trichotomy m n) as [Hmn|[->|Hmn]]; [|reflexivity|].
    + rewrite Hbelow in Hm by exact Hmn. discriminate.
    + rewrite Hlt in Hend by lia. discriminate.
Qed.

Lemma to_index_nonneg a z : JsNumber.to_index a = Some z -> (0 <= z)%Z.
Proof.
  unfold JsNumber.to_index.
  destruct (Prim2SF a) as [?|?| |[] m e]; try discriminate.
  - intros H. injection H as <-. lia.
  - destruct (Z.leb_spec 0 e) as [He|He]; [intros H; injection H as <-; lia|].
    destruct (_ =? 0)%Z; [|discriminate].
    intros H. injection H as <-.
    apply Z.div_pos; [lia | apply Z.pow_pos_nonneg; lia].
Qed.

(** [createPopulation] returns whenever the loop ends and the position
    drawn for patient zero is one of those it has filled. *)
Lemma createPopulation_returns size k n z :
  pushes size n -> (Z.of_nat n < 2 ^ 32)%Z ->
  patientZeroIndex size k = Some z -> (z < Z.of_nat n)%Z ->
  exists created,
    createPopulation size k = (inr created, S k) /\ length created = n.
Proof.
  intros Hn Hcap Hz Hlt. unfold createPopulation.
  rewrite (pushLoop_complete _ size n Hn Hcap).
  unfold JsNumber.get. unfold patientZeroIndex in Hz. rewrite Hz.
  rewrite length_fmap, length_seq.
  destruct (Z.ltb_spec z (Z.of_nat n)) as [_|]; [|lia].
  pose proof (to_index_nonneg _ _ Hz) as Hpos.
  destruct (lookup_lt_is_Some_2
              (newIndividual (PrimFloat.sqrt size) <$> seq 0 n) (Z.to_nat z))
    as [patientZero Hp].
  { rewrite length_fmap, length_seq. lia. }
  rewrite Hp. eexists. split; [reflexivity|].
  now rewrite length_insert, length_fmap, length_seq.
Qed.

Lemma get_lookup {A : Type} (arr : list A) a i v :
  JsNumber.get arr a = Some (i, v) -> arr !! i = Some v.
Proof.
  unfold JsNumber.get. destruct (JsNumber.to_index a) as [z|]; [|discriminate].
  destruct (z <? Z.of_nat (length arr))%Z; [|discriminate].
  destruct (arr !! Z.to_nat z) as [w|] eqn:Hw; [|discriminate].
  intros H. injection H as <- <-. exact Hw.
Qed.

(** What [createPopulation] returns: the individuals that the loop has
    pushed, one of them turned into patient zero. *)
Lemma createPopulation_base size k pop k' :
  createPopulation size k = (inr pop, k') ->
  exists n i,
    pushes size n /\ i < n /\ k' = S k
    /\ pop = <[i := set_daysInfected 0 (set_state "infected"
                       (newIndividual (PrimFloat.sqrt size) i))]>
              (newIndividual (PrimFloat.sqrt size) <$> seq 0 n).
Proof.
  unfold createPopulation.
  destruct (pushLoop _ size) as [base|] eqn:Hloop; [|discriminate].
  apply pushLoop_spec in Hloop as (n & -> & Hn).
  destruct (JsNumber.get _ _) as [[i patientZero]|] eqn:Hget; [|discriminate].
  intros H. injection H as <- <-.
  apply get_lookup in Hget.
  assert (Hi : i < n).
  { apply lookup_lt_Some in Hget. now rewrite length_fmap, length_seq in Hget. }
  rewrite list_lookup_fmap, lookup_seq_lt in Hget by exact Hi.
  injection Hget as <-. now exists n, i.
Qed.

(** ** Individuals: what the fields of an updated record are *)

Lemma in_state_true s p : in_state s p = true <-> state p = s.
Proof. unfold in_state. apply String.eqb_eq. Qed.

Lemma in_state_false s p : in_state s p = false <-> state p <> s.
Proof. unfold in_state. apply String.eqb_neq. Qed.

Lemma core_markQuarantine active p : core (markQuarantine active p) = core p.
Proof. unfold markQuarantine. destruct (in_state "infected" p); reflexivity. Qed.

Lemma core_in_state s p q : core p = core q -> in_state s p = in_state s q.
Proof.
  intros H. unfold in_state.
  change (state p) with (state (core p)). change (state q) with (state (core q)).
  now rewrite H.
Qed.

Lemma core_inContact p p' o o' :
  core p = core p' -> core o = core o' -> inContact p o = inContact p' o'.
Proof.
  intros Hp Ho. unfold inContact.
  change (x p) with (x (core p)). change (y p) with (y (core p)).
  change (x o) with (x (core o)). change (y o) with (y (core o)).
  rewrite Hp, Ho. reflexivity.
Qed.

Lemma fmap_cons_eq {A B : Type} (f : A -> B) a b (l l' : list A) :
  f <$> (a :: l) = f <$> (b :: l') -> f a = f b /\ f <$> l = f <$> l'.
Proof. rewrite !fmap_cons. intros H. split; congruence. Qed.

(** ** The exposure pass *)

(** The inner loop reads [state], [x] and [y] only. *)
Lemma scanHealthy_core rate p p' others others' j ne k :
  core p = core p' -> core <$> others = core <$> others' ->
  scanHealthy rate p others j ne k = scanHealthy rate p' others' j ne k.
Proof.
  intros Hp. revert others' j ne k.
  induction others as [|o rest IH]; intros [|o' rest'] j ne k Ho;
    try discriminate; [reflexivity|].
  apply fmap_cons_eq in Ho as [Ho Hrest]. cbn [scanHealthy].
  rewrite (core_in_state "healthy" o o' Ho), (core_inContact p p' o o' Hp Ho).
  destruct (in_state "healthy" o'); [|now apply IH].
  destruct (inContact p' o'); [|now apply IH].
  destruct (PrimFloat.ltb (random k) rate); [|now apply IH].
  destruct (bool_decide (j ∈ ne)); now apply IH.
Qed.

(** The outer loop, started on the positions of [todo] after [done] has
    been visited: it marks [todo] and scans the unmarked population. *)
Lemma exposeFrom_fold active rate pop todo : forall done ne k,
  core <$> (done ++ todo) = core <$> pop ->
  fold_left (exposeFrom active rate) (seq (length done) (length todo))
    (done ++ todo, ne, k)
  = (done ++ (markQuarantine active <$> todo),
     (scanFrom rate pop todo ne k).1, (scanFrom rate pop todo ne k).2).
Proof.
  induction todo as [|p rest IH]; intros done ne k Hcore.
  - cbn. reflexivity.
  - cbn [length seq fold_left exposeFrom scanFrom fmap list_fmap].
    rewrite list_lookup_middle by reflexivity.
    unfold markQuarantine at 1.
    destruct (in_state "infected" p) eqn:Hinf.
    + assert (Hscan :
        scanHealthy rate (set_quarantined active p)
          (<[length done := set_quarantined active p]> (done ++ p :: rest)) 0 ne k
        = scanHealthy rate p pop 0 ne k).
      { apply scanHealthy_core; [reflexivity|].
        rewrite <- Hcore, list_fmap_insert.
        apply list_insert_id. rewrite list_lookup_fmap.
        rewrite list_lookup_middle by reflexivity. reflexivity. }
      rewrite Hscan. destruct (scanHealthy rate p pop 0 ne k) as [ne' k'].
      rewrite insert_app_r_alt by lia.
      rewrite Nat.sub_diag. cbn [insert list_insert].
      specialize (IH (done ++ [set_quarantined active p]) ne' k').
      rewrite length_app, Nat.add_1_r, <- !app_assoc in IH. cbn [app] in IH.
      rewrite IH; [reflexivity|].
      rewrite <- Hcore, !fmap_app, !fmap_cons. reflexivity.
    + specialize (IH (done ++ [p]) ne k).
      rewrite length_app, Nat.add_1_r, <- !app_assoc in IH. cbn [app] in IH.
      rewrite IH; [reflexivity | exact Hcore].
Qed.

Lemma exposurePass_eq active rate pop k :
  exposurePass active rate pop k
  = (markQuarantine active <$> pop,
     (scanFrom rate pop pop [] k).1, (scanFrom rate pop pop [] k).2).
Proof.
  unfold exposurePass.
  exact (exposeFrom_fold active rate pop pop [] [] k eq_refl).
Qed.

(** *** The trials of the exposure pass *)

Lemma successes_app rate l1 l2 k :
  successes rate (l1 ++ l2) k
  = successes rate l1 k ++ successes rate l2 (k + length l1).
Proof.
  revert k. induction l1 as [|j l1 IH]; intros k; cbn [app successes length].
  - now rewrite Nat.add_0_r.
  - rewrite IH, Nat.add_succ_comm.
    destruct (PrimFloat.ltb (random k) rate); reflexivity.
Qed.

Lemma successes_subset rate l k a : a ∈ successes rate l k -> a ∈ l.
Proof.
  revert k. induction l as [|j l IH]; intros k; cbn [successes]; [easy|].
  destruct (PrimFloat.ltb (random k) rate); rewrite ?elem_of_cons;
    intros H; [destruct H as [H|H]|]; eauto.
Qed.

Lemma contactsOf_lookup p others j a :
  a ∈ contactsOf p others j ->
  exists o, j <= a /\ others !! (a - j) = Some o
            /\ state o = "healthy" /\ inContact p o = true.
Proof.
  revert j. induction others as [|o rest IH]; intros j; cbn [contactsOf]; [easy|].
  assert (Hrest : a ∈ contactsOf p rest (S j) ->
    exists o', j <= a /\ (o :: rest) !! (a - j) = Some o'
               /\ state o' = "healthy" /\ inContact p o' = true).
  { intros H. destruct (IH _ H) as (o' & Hle & Hl & Hs & Hc).
    exists o'. repeat split; try assumption; [lia|].
    replace (a - j) with (S (a - S j)) by lia. exact Hl. }
  destruct (in_state "healthy" o && inContact p o) eqn:Hb; [|exact Hrest].
  rewrite elem_of_cons. intros [->|H]; [|now apply Hrest].
  apply andb_true_iff in Hb as [Hs Hc]. apply in_state_true in Hs.
  exists o. rewrite Nat.sub_diag. repeat split; auto.
Qed.

(** The inner loop makes one draw per healthy individual in contact and
    appends the targets of the successful ones that are not yet pending. *)
Lemma scanHealthy_spec rate p others : forall j ne k,
  NoDup ne ->
  let r := scanHealthy rate p others j ne k in
  r.2 = k + length (contactsOf p others j)
  /\ NoDup r.1
  /\ forall a, a ∈ r.1 <-> a ∈ ne \/ a ∈ successes rate (contactsOf p others j) k.
Proof.
  induction others as [|o rest IH]; intros j ne k Hnd;
    cbn [scanHealthy contactsOf].
  - cbn. split; [lia|]. split; [exact Hnd|]. intros a. rewrite elem_of_nil. tauto.
  - destruct (in_state "healthy" o); cbn [andb]; [|now apply IH].
    destruct (inContact p o); [|now apply IH].
    cbn [successes length].
    destruct (PrimFloat.ltb (random k) rate).
    + destruct (bool_decide (j ∈ ne)) eqn:Hin.
      * apply bool_decide_eq_true in Hin.
        destruct (IH (S j) ne (S k) Hnd) as (Hk & Hnd' & Hmem).
        split; [rewrite Hk; lia|]. split; [exact Hnd'|].
        intros a. rewrite Hmem, elem_of_cons.
        split; [tauto|]. intros [H|[->|H]]; auto.
      * apply bool_decide_eq_false in Hin.
        assert (Hnd1 : NoDup (ne ++ [j])).
        { apply NoDup_app. split; [exact Hnd|]. split.
          - intros a Ha Hj. apply list_elem_of_singleton in Hj. now subst.
          - apply NoDup_singleton. }
        destruct (IH (S j) (ne ++ [j]) (S k) Hnd1) as (Hk & Hnd' & Hmem).
        split; [rewrite Hk; lia|]. split; [exact Hnd'|].
        intros a. rewrite Hmem, elem_of_app, list_elem_of_singleton, elem_of_cons.
        tauto.
    + destruct (IH (S j) ne (S k) Hnd) as (Hk & Hnd' & Hmem).
      split; [rewrite Hk; lia|]. split; [exact Hnd'|]. exact Hmem.
Qed.

(** The same for the whole pass. *)
Lemma scanFrom_spec rate whole ps : forall ne k,
  NoDup ne ->
  let r := scanFrom rate whole ps ne k in
  r.2 = k + length (trialTargets whole ps)
  /\ NoDup r.1
  /\ forall a, a ∈ r.1 <-> a ∈ ne \/ a ∈ successes rate (trialTargets whole ps) k.
Proof.
  induction ps as [|p rest IH]; intros ne k Hnd; cbn [scanFrom trialTargets].
  - cbn. split; [lia|]. split; [exact Hnd|]. intros a. rewrite elem_of_nil. tauto.
  - destruct (in_state "infected" p); [|now apply IH].
    destruct (scanHealthy_spec rate p whole 0 ne k Hnd) as (Hk & Hnd' & Hmem).
    destruct (scanHealthy rate p whole 0 ne k) as [ne' k']. cbn [fst snd] in *.
    destruct (IH ne' k' Hnd') as (Hk2 & Hnd2 & Hmem2).
    split; [rewrite Hk2, Hk, length_app; lia|]. split; [exact Hnd2|].
    intros a. rewrite Hmem2, Hmem, successes_app, elem_of_app, Hk. tauto.
Qed.

Lemma trialTargets_lookup whole ps a :
  a ∈ trialTargets whole ps ->
  exists p o, p ∈ ps /\ state p = "infected" /\ whole !! a = Some o
              /\ state o = "healthy" /\ inContact p o = true.
Proof.
  induction ps as [|p rest IH]; cbn [trialTargets]; [easy|].
  assert (Hrest : a ∈ trialTargets whole rest ->
    exists p' o, p' ∈ p :: rest /\ state p' = "infected" /\ whole !! a = Some o
                 /\ state o = "healthy" /\ inContact p' o = true).
  { intros H. destruct (IH H) as (p' & o & Hp & Hrest).
    exists p', o. split; [now apply elem_of_cons; right | exact Hrest]. }
  destruct (in_state "infected" p) eqn:Hinf; [|exact Hrest].
  rewrite elem_of_app. intros [H|H]; [|now apply Hrest].
  apply contactsOf_lookup in H as (o & _ & Hl & Hs & Hc).
  rewrite Nat.sub_0_r in Hl. apply in_state_true in Hinf.
  exists p, o. split; [now apply elem_of_cons; left | auto].
Qed.

(** Every pending exposure is the position of a healthy individual, in
    contact with an infected one. *)
Lemma pendingExposures_contact pop params k j :
  j ∈ pendingExposures pop params k ->
  exists p o, p ∈ pop /\ state p = "infected" /\ pop !! j = Some o
              /\ state o = "healthy" /\ inContact p o = true.
Proof.
  unfold pendingExposures. rewrite exposurePass_eq. cbn [fst snd].
  intros H.
  apply (scanFrom_spec _ pop pop [] k (NoDup_nil_2)) in H as [H|H];
    [now apply elem_of_nil in H|].
  now apply successes_subset, trialTargets_lookup in H.
Qed.

Lemma pendingExposures_healthy pop params k j :
  j ∈ pendingExposures pop params k ->
  exists o, pop !! j = Some o /\ state o = "healthy".
Proof.
  intros H. apply pendingExposures_contact in H as (p & o & _ & _ & Hl & Hs & _).
  now exists o.
Qed.

(** ** Commit of the exposures *)

Lemma commitExposures_lookup ne : forall pop j,
  commitExposures ne pop !! j
  = (if bool_decide (j ∈ ne) then markExposed else fun p => p) <$> pop !! j.
Proof.
  unfold commitExposures.
  induction ne as [|a ne IH]; intros pop j; cbn [fold_left].
  - rewrite bool_decide_eq_false_2 by apply not_elem_of_nil.
    now destruct (pop !! j).
  - rewrite IH. destruct (decide (a = j)) as [->|Hne].
    + rewrite list_lookup_alter_eq.
      rewrite (bool_decide_eq_true_2 (j ∈ j :: ne)) by (apply elem_of_cons; auto).
      destruct (pop !! j) as [p|]; [|reflexivity]. cbn.
      now destruct (bool_decide (j ∈ ne)).
    + rewrite list_lookup_alter_ne by exact Hne.
      destruct (bool_decide (j ∈ ne)) eqn:Hin.
      * apply bool_decide_eq_true in Hin.
        rewrite bool_decide_eq_true_2 by (apply elem_of_cons; auto). reflexivity.
      * apply bool_decide_eq_false in Hin.
        rewrite bool_decide_eq_false_2; [reflexivity|].
        rewrite elem_of_cons. intros [?|?]; [congruence | contradiction].
Qed.

(** ** The state-advance pass *)

Lemma advancePass_lookup params pop : forall k j p,
  pop !! j = Some p ->
  exists kj, (advancePass params pop k).1 !! j
             = Some (advanceIndividual params p kj).1.
Proof.
  induction pop as [|q rest IH]; intros k j p Hl; [discriminate|].
  cbn [advancePass].
  destruct (advanceIndividual params q k) as [q' k'] eqn:Hq.
  specialize (IH k').
  destruct (advancePass params rest k') as [rest' k''].
  destruct j as [|j]; cbn in Hl |- *.
  - injection Hl as <-. exists k. now rewrite Hq.
  - exact (IH j p Hl).
Qed.

Lemma advancePass_length params pop : forall k,
  length (advancePass params pop k).1 = length pop.
Proof.
  induction pop as [|q rest IH]; intros k; [reflexivity|].
  cbn [advancePass].
  destruct (advanceIndividual params q k) as [q' k'].
  specialize (IH k'). destruct (advancePass params rest k') as [rest' k''].
  cbn in *. now rewrite IH.
Qed.

(** ** A round, individual by individual *)

Lemma updatePopulation_unfold pop params k :
  updatePopulation pop params k
  = advancePass params
      (commitExposures (pendingExposures pop params k)
         (afterExposurePass pop params k))
      (exposurePass (quarantineActive pop params)
         (effectiveInfectionRate pop params) pop k).2.
Proof.
  unfold updatePopulation, pendingExposures, afterExposurePass.
  now destruct (exposurePass _ _ pop k) as [[pop1 ne] k1].
Qed.

Lemma afterExposurePass_eq pop params k :
  afterExposurePass pop params k
  = markQuarantine (quarantineActive pop params) <$> pop.
Proof. unfold afterExposurePass. now rewrite exposurePass_eq. Qed.

Lemma commitExposures_length ne : forall pop,
  length (commitExposures ne pop) = length pop.
Proof.
  unfold commitExposures.
  induction ne as [|a ne IH]; intros pop; cbn [fold_left]; [reflexivity|].
  now rewrite IH, length_alter.
Qed.

Lemma updatePopulation_length pop params k :
  length (updatePopulation pop params k).1 = length pop.
Proof.
  rewrite updatePopulation_unfold, advancePass_length, commitExposures_length.
  now rewrite afterExposurePass_eq, length_fmap.
Qed.

(** What a round makes of the individual at position [j]. *)
Lemma updatePopulation_lookup pop params k j p :
  pop !! j = Some p ->
  exists kj,
    (updatePopulation pop params k).1 !! j
    = Some (roundOf params (quarantineActive pop params)
              (bool_decide (j ∈ pendingExposures pop params k)) kj p).
Proof.
  intros Hl. rewrite updatePopulation_unfold.
  apply advancePass_lookup.
  rewrite commitExposures_lookup, afterExposurePass_eq, list_lookup_fmap, Hl.
  cbn. now destruct (bool_decide _).
Qed.

(** The same for the whole population: each individual goes through
    [roundOf], and is pending only if it was healthy. *)
Lemma updatePopulation_pointwise pop params k :
  Forall2
    (fun p p' => exists pending kj,
       (pending = true -> state p = "healthy")
       /\ p' = roundOf params (quarantineActive pop params) pending kj p)
    pop (updatePopulation pop params k).1.
Proof.
  apply Forall2_same_length_lookup_2.
  - now rewrite updatePopulation_length.
  - intros j p p' Hl Hl'.
    destruct (updatePopulation_lookup pop params k j p Hl) as [kj Hkj].
    rewrite Hkj in Hl'. injection Hl' as <-.
    exists (bool_decide (j ∈ pendingExposures pop params k)), kj.
    split; [|reflexivity].
    intros Hin. apply bool_decide_eq_true in Hin.
    apply pendingExposures_healthy in Hin as (o & Ho & Hs). congruence.
Qed.

(** ** Case analysis of a round *)

Ltac eqb_facts :=
  repeat match goal with
    | H : String.eqb _ _ = true |- _ => apply String.eqb_eq in H
    | H : String.eqb _ _ = false |- _ => apply String.eqb_neq in H
    end.

(** Opens [roundOf] and splits on every test of the round, innermost
    first. *)
Ltac round_cases :=
  unfold roundOf, markQuarantine, advanceIndividual, markExposed, in_state;
  repeat (cbn;
          match goal with
          | |- context [if ?b then _ else _] =>
              lazymatch b with
              | context [if _ then _ else _] => fail
              | _ => destruct b eqn:?
              end
          end);
  cbn; eqb_facts.

Lemma roundOf_fixedFields params active pending k p :
  fixedFields (roundOf params active pending k p) = fixedFields p.
Proof. round_cases; reflexivity. Qed.

Lemma roundOf_valid_state params active pending k p :
  valid_state p -> valid_state (roundOf params active pending k p).
Proof. unfold valid_state. round_cases; tauto. Qed.

(** A pending exposure goes through the [exposed] branch of the last
    loop in the same round. *)
Lemma roundOf_pending params active k p :
  let p' := roundOf params active true k p in
  newlyExposed p' = false
  /\ ((2 <= incubationTime params)%Z -> state p' = "exposed" /\ daysExposed p' = 1).
Proof.
  round_cases; (split; [reflexivity|]); intros Hinc; try (split; reflexivity);
    match goal with H : (_ <=? _)%Z = true |- _ => apply Z.leb_le in H; lia end.
Qed.

Lemma roundOf_incubated params active k p :
  incubationTime params = 1%Z -> state p = "exposed" ->
  let p' := roundOf params active false k p in
  state p' = "infected" /\ daysInfected p' = 0 /\ newlyInfected p' = true.
Proof.
  intros Hinc Hs.
  unfold roundOf, markQuarantine, advanceIndividual, in_state.
  rewrite Hs. cbn. rewrite Hs, Hinc. cbn.
  destruct (newlyExposed p); cbn;
    (destruct (Z.leb_spec 1 (Z.of_nat (daysExposed p + 1))); [|lia]);
    cbn; auto.
Qed.

(** Outside the states [exposed] and [infected], an individual that is not
    pending changes state only by a successful reinfection draw. *)
Lemma roundOf_quiet params active k p :
  state p <> "infected" -> state p <> "exposed" ->
  PrimFloat.ltb (random k) (reinfectionProbability params) = false ->
  state (roundOf params active false k p) = state p.
Proof. intros Hi He Hr. round_cases; congruence. Qed.

(** The counters of an individual after a round. *)
Lemma roundOf_counters params active pending k p :
  (state p <> "exposed" -> daysExposed p = 0) ->
  (state p <> "infected" -> daysInfected p = 0) ->
  (pending = true -> state p = "healthy") ->
  counters_reset (roundOf params active pending k p).
Proof.
  intros He Hi Hp. unfold counters_reset.
  round_cases; intuition (try congruence; try lia).
Qed.

(** The two display flags: [newlyInfected] is up when the round of the
    transition ends and down when the next one ends; neither flag is read
    by a transition. *)
Lemma roundOf_display_flags params active pending k p b1 b2 :
  (state p = "exposed" -> pending = false ->
   state (roundOf params active pending k p) = "infected" ->
   newlyInfected (roundOf params active pending k p) = true)
  /\ (state p = "infected" -> pending = false ->
      newlyInfected (roundOf params active pending k p) = false)
  /\ simulationFields
       (roundOf params active pending k (set_newlyExposed b1 (set_newlyInfected b2 p)))
     = simulationFields (roundOf params active pending k p).
Proof.
  split; [|split].
  - intros Hs -> . unfold roundOf, markQuarantine, advanceIndividual, in_state.
    rewrite Hs. cbn. rewrite Hs. cbn.
    destruct (_ <=? _)%Z; cbn; [reflexivity|].
    destruct (newlyExposed p); cbn; congruence.
  - intros Hs ->. unfold roundOf, markQuarantine, advanceIndividual, in_state.
    rewrite Hs. cbn. rewrite Hs. cbn.
    destruct (newlyInfected p) eqn:Hn; cbn; destruct (_ <=? _)%Z; cbn; congruence.
  - unfold simulationFields.
    destruct b1, b2; round_cases; first [reflexivity | congruence].
Qed.

(** ** Conservation *)

Lemma count_state_cons s p pop :
  count_state s (p :: pop)
  = (if in_state s p then 1 else 0) + count_state s pop.
Proof. unfold count_state. cbn [List.filter]. now destruct (in_state s p). Qed.

Lemma headcount_valid pop r :
  Forall valid_state pop -> headcount (computeStatistics pop r) = length pop.
Proof.
  unfold headcount, computeStatistics. cbn [healthy exposed infected recovered].
  induction 1 as [|p pop Hp _ IH]; [reflexivity|].
  rewrite !count_state_cons. cbn [length]. rewrite <- IH.
  unfold in_state.
  destruct Hp as [H|[H|[H|H]]]; rewrite H; cbn; lia.
Qed.

Lemma updatePopulation_valid pop params k :
  Forall valid_state pop -> Forall valid_state (updatePopulation pop params k).1.
Proof.
  intros Hv.
  apply (Forall2_Forall_r _ valid_state _ _ (updatePopulation_pointwise pop params k)).
  apply Forall_forall. intros p Hp p' (pending & kj & _ & ->).
  apply roundOf_valid_state. rewrite Forall_forall in Hv. now apply Hv.
Qed.

Lemma createPopulation_valid size k pop k' :
  createPopulation size k = (inr pop, k') -> Forall valid_state pop.
Proof.
  intros H. destruct (createPopulation_base size k pop k' H) as (n & i & _ & _ & _ & ->).
  apply Forall_insert.
  - apply Forall_fmap, Forall_forall. intros j _. now left.
  - right. right. now left.
Qed.

(** Conservation holds at every point the driver can observe. *)
Lemma observable_conservation pop r :
  observable pop -> headcount (computeStatistics pop r) = length pop.
Proof.
  intros Hobs. apply headcount_valid.
  induction Hobs as [size k pop k' Hcreate | pop params k _ IH].
  - exact (createPopulation_valid size k pop k' Hcreate).
  - now apply updatePopulation_valid.
Qed.

(** ** Rounds without a case *)

(** A draw of [Math.random()] is never below a probability of zero. *)
Lemma draw_not_below_zero r q :
  PrimFloat.leb 0 r = true -> PrimFloat.eqb q 0 = true ->
  PrimFloat.ltb r q = false.
Proof.
  rewrite FloatAxioms.leb_spec, FloatAxioms.eqb_spec, FloatAxioms.ltb_spec.
  change (Prim2SF 0) with (S754_zero false).
  destruct (Prim2SF r) as [[]|[]| |[] mr er], (Prim2SF q) as [[]|[]| |[] mq eq];
    cbn; congruence.
Qed.

Lemma count_state_zero s pop :
  count_state s pop = 0 -> Forall (fun p => state p <> s) pop.
Proof.
  induction pop as [|p pop IH]; [constructor|].
  rewrite count_state_cons. destruct (in_state s p) eqn:Hs; [discriminate|].
  intros H. constructor; [now apply in_state_false | now apply IH].
Qed.

Lemma count_state_states s pop : forall pop',
  state <$> pop = state <$> pop' -> count_state s pop = count_state s pop'.
Proof.
  induction pop as [|p pop IH]; intros [|p' pop'] H; try discriminate; [reflexivity|].
  apply fmap_cons_eq in H as [Hp Hrest].
  rewrite !count_state_cons, (IH pop' Hrest). unfold in_state. now rewrite Hp.
Qed.

Lemma updatePopulation_quiet pop params k :
  draws_in_unit_interval ->
  count_state "infected" pop = 0 -> count_state "exposed" pop = 0 ->
  PrimFloat.eqb (reinfectionProbability params) 0 = true ->
  state <$> (updatePopulation pop params k).1 = state <$> pop.
Proof.
  intros Hdraw Hi He Hr.
  apply count_state_zero in Hi, He. rewrite Forall_forall in Hi, He.
  apply list_eq. intros j. rewrite !list_lookup_fmap.
  destruct (pop !! j) as [p|] eqn:Hl.
  - destruct (updatePopulation_lookup pop params k j p Hl) as [kj ->].
    rewrite bool_decide_eq_false_2.
    + cbn. f_equal. apply list_elem_of_lookup_2 in Hl.
      apply roundOf_quiet; [now apply Hi | now apply He |].
      apply draw_not_below_zero; [apply Hdraw | exact Hr].
    + intros Hin.
      apply pendingExposures_contact in Hin as (p0 & _ & Hp0 & Hs0 & _).
      exact (Hi p0 Hp0 Hs0).
  - apply lookup_ge_None in Hl.
    rewrite (proj2 (lookup_ge_None _ j)); [reflexivity|].
    now rewrite updatePopulation_length.
Qed.

Lemma runRounds_quiet params n : forall pop k,
  draws_in_unit_interval ->
  count_state "infected" pop = 0 -> count_state "exposed" pop = 0 ->
  PrimFloat.eqb (reinfectionProbability params) 0 = true ->
  state <$> (runRounds n pop params k).1 = state <$> pop.
Proof.
  induction n as [|n IH]; intros pop k Hdraw Hi He Hr; [reflexivity|].
  cbn [runRounds].
  pose proof (updatePopulation_quiet pop params k Hdraw Hi He Hr) as Hq.
  destruct (updatePopulation pop params k) as [pop' k']. cbn [fst] in Hq.
  rewrite IH; [exact Hq | exact Hdraw | | | exact Hr].
  - now rewrite (count_state_states "infected" pop' pop Hq).
  - now rewrite (count_state_states "exposed" pop' pop Hq).
Qed.

(** ** The counters at the observable points *)

Lemma createPopulation_counters size k pop k' :
  createPopulation size k = (inr pop, k') -> Forall counters_reset pop.
Proof.
  intros H. destruct (createPopulation_base size k pop k' H) as (n & i & _ & _ & _ & ->).
  apply Forall_insert.
  - apply Forall_fmap, Forall_forall. intros j _.
    unfold counters_reset. cbn. intuition congruence.
  - unfold counters_reset. cbn. intuition congruence.
Qed.

Lemma updatePopulation_counters pop params k :
  Forall counters_reset pop -> Forall counters_reset (updatePopulation pop params k).1.
Proof.
  intros Hc.
  apply (Forall2_Forall_r _ counters_reset _ _ (updatePopulation_pointwise pop params k)).
  apply Forall_forall. intros p Hp p' (pending & kj & Hpending & ->).
  rewrite Forall_forall in Hc. destruct (Hc p Hp) as [He Hi].
  apply roundOf_counters; [apply He | exact Hi | exact Hpending].
Qed.

(** ** The properties of the specification *)

(** C1. Conservation: when every individual of a population is in one of
    the four states, the four counts of [computeStatistics] sum to the size
    of the population; [updatePopulation] keeps every individual in one of
    the four states, so the counts taken after it sum to the same size. *)
Theorem conservation pop params k r r' :
  Forall valid_state pop ->
  headcount (computeStatistics pop r) = length pop
  /\ Forall valid_state (updatePopulation pop params k).1
  /\ headcount (computeStatistics (updatePopulation pop params k).1 r') = length pop.
Proof.
  intros Hv. split; [now apply headcount_valid|].
  pose proof (updatePopulation_valid pop params k Hv) as Hv'.
  split; [exact Hv'|].
  rewrite (headcount_valid _ r' Hv'). apply updatePopulation_length.
Qed.

(** C8. On the empty population [updatePopulation] returns the empty
    population and makes no draw, whatever the parameters; the infected
    fraction is then 0/0, which is the number NaN and no failure, and the
    quarantine test on it is false. *)
Theorem empty_population params k :
  updatePopulation [] params k = ([], k)
  /\ PrimFloat.is_nan (fractionInfected []) = true
  /\ quarantineActive [] params = false.
Proof.
  split; [reflexivity|]. split; [reflexivity|].
  unfold quarantineActive. rewrite FloatAxioms.leb_spec.
  change (Prim2SF (fractionInfected [])) with S754_nan.
  destruct (Prim2SF (quarantineThreshold params)) as [[]|[]| |[] m e]; reflexivity.
Qed.

(** C9. [updatePopulation] returns a population of the same length in
    which the individual at each position has the [id], [x] and [y] of the
    individual that was at that position. *)
Theorem frame pop params k :
  length (updatePopulation pop params k).1 = length pop
  /\ fixedFields <$> (updatePopulation pop params k).1 = fixedFields <$> pop.
Proof.
  split; [apply updatePopulation_length|].
  apply list_eq. intros j. rewrite !list_lookup_fmap.
  destruct (pop !! j) as [p|] eqn:Hl.
  - destruct (updatePopulation_lookup pop params k j p Hl) as [kj ->].
    cbn. now rewrite roundOf_fixedFields.
  - apply lookup_ge_None in Hl.
    rewrite (proj2 (lookup_ge_None _ j)); [reflexivity|].
    now rewrite updatePopulation_length.
Qed.

(** C6. The commit precedes the state-advance pass: an individual that
    the exposure pass of a call has made pending (it was healthy) is
    [exposed] with [daysExposed = 0] in the population handed to the last
    loop, and, when [incubationTime >= 2], is [exposed] with
    [daysExposed = 1] in the population that the same call returns. *)
Theorem fresh_exposure_advanced pop params k j :
  j ∈ pendingExposures pop params k ->
  (2 <= incubationTime params)%Z ->
  exists p q p',
    pop !! j = Some p /\ state p = "healthy"
    /\ commitExposures (pendingExposures pop params k)
          (afterExposurePass pop params k) !! j = Some q
    /\ state q = "exposed" /\ daysExposed q = 0
    /\ (updatePopulation pop params k).1 !! j = Some p'
    /\ state p' = "exposed" /\ daysExposed p' = 1.
Proof.
  intros Hin Hinc.
  destruct (pendingExposures_healthy pop params k j Hin) as (p & Hl & Hs).
  destruct (updatePopulation_lookup pop params k j p Hl) as [kj Hu].
  rewrite (bool_decide_eq_true_2 _ Hin) in Hu.
  destruct (roundOf_pending params (quarantineActive pop params) kj p) as [_ Hr].
  exists p, (markExposed (markQuarantine (quarantineActive pop params) p)),
    (roundOf params (quarantineActive pop params) true kj p).
  split; [exact Hl|]. split; [exact Hs|]. split.
  - rewrite commitExposures_lookup, afterExposurePass_eq, list_lookup_fmap, Hl.
    now rewrite (bool_decide_eq_true_2 _ Hin).
  - split; [reflexivity|]. split; [reflexivity|]. split; [exact Hu|].
    exact (Hr Hinc).
Qed.

(** C7. With [incubationTime = 1], an individual that is [exposed] with
    [daysExposed = 0] is, after one call of [updatePopulation] and whatever
    the other individuals are, [infected] with [daysInfected = 0] and
    [newlyInfected = true]. *)
Theorem incubation_of_one_round pop params k j p :
  incubationTime params = 1%Z ->
  pop !! j = Some p -> state p = "exposed" -> daysExposed p = 0 ->
  exists p', (updatePopulation pop params k).1 !! j = Some p'
             /\ state p' = "infected" /\ daysInfected p' = 0
             /\ newlyInfected p' = true.
Proof.
  intros Hinc Hl Hs _.
  destruct (updatePopulation_lookup pop params k j p Hl) as [kj Hu].
  rewrite bool_decide_eq_false_2 in Hu.
  - eexists. split; [exact Hu|]. now apply roundOf_incubated.
  - intros Hin. apply pendingExposures_healthy in Hin as (o & Ho & Hh). congruence.
Qed.

(** The flag [newlyExposed] of an individual exposed in a call is down
    when the call returns. *)
Lemma newlyExposed_down_on_return pop params k j :
  j ∈ pendingExposures pop params k ->
  exists p', (updatePopulation pop params k).1 !! j = Some p'
             /\ newlyExposed p' = false.
Proof.
  intros Hin.
  destruct (pendingExposures_healthy pop params k j Hin) as (p & Hl & Hs).
  destruct (updatePopulation_lookup pop params k j p Hl) as [kj Hu].
  rewrite (bool_decide_eq_true_2 _ Hin) in Hu.
  eexists. split; [exact Hu|].
  apply (roundOf_pending params (quarantineActive pop params) kj p).
Qed.

(** C10. When no individual is [infected] or [exposed] and
    [reinfectionProbability == 0], a round leaves the state of every
    individual as it was, hence the four counts too, and so does any number
    of rounds (the draws of [Math.random()] being in [[0, 1)]). *)
Theorem no_spontaneous_case pop params k n r :
  draws_in_unit_interval ->
  count_state "infected" pop = 0 -> count_state "exposed" pop = 0 ->
  PrimFloat.eqb (reinfectionProbability params) 0 = true ->
  state <$> (updatePopulation pop params k).1 = state <$> pop
  /\ computeStatistics (updatePopulation pop params k).1 r = computeStatistics pop r
  /\ state <$> (runRounds n pop params k).1 = state <$> pop
  /\ computeStatistics (runRounds n pop params k).1 r = computeStatistics pop r.
Proof.
  intros Hdraw Hi He Hr.
  pose proof (updatePopulation_quiet pop params k Hdraw Hi He Hr) as H1.
  pose proof (runRounds_quiet params n pop k Hdraw Hi He Hr) as Hn.
  unfold computeStatistics.
  repeat split; try assumption; f_equal; now apply count_state_states.
Qed.

(** C4 as the code has it. At every observable point, [daysExposed] is zero
    exactly when the state is not [exposed], and [daysInfected] is zero
    whenever the state is not [infected]. *)
Theorem counters_at_observable_points pop :
  observable pop -> Forall counters_reset pop.
Proof.
  induction 1 as [size k pop k' Hcreate | pop params k _ IH].
  - exact (createPopulation_counters size k pop k' Hcreate).
  - now apply updatePopulation_counters.
Qed.

Lemma spec_countInfected_eq pop : spec_countInfected pop = count_state "infected" pop.
Proof.
  unfold count_state.
  induction pop as [|p pop IH]; [reflexivity|].
  cbn [spec_countInfected List.filter]. unfold in_state at 1.
  destruct (String.string_dec (state p) "infected") as [Hs|Hs].
  - rewrite (proj2 (String.eqb_eq _ _) Hs). cbn [length]. now rewrite IH.
  - rewrite (proj2 (String.eqb_neq _ _) Hs). exact IH.
Qed.

Lemma spec_size_eq pop : spec_size pop = length pop.
Proof. induction pop as [|p pop IH]; [reflexivity|]. cbn. now rewrite IH. Qed.

Lemma spec_quarantineActive_eq pop params :
  quarantineActive pop params = spec_quarantineActive pop params.
Proof.
  unfold quarantineActive, spec_quarantineActive, fractionInfected, infectedCount.
  now rewrite <- (spec_countInfected_eq pop), <- (spec_size_eq pop).
Qed.

(** C2. The quarantine decision of a round is the specification's, taken on
    the population as passed in: the count of the infected individuals over
    the size, compared with [quarantineThreshold].  When the exposure pass
    ends, every individual that was [infected] has its field [quarantined]
    equal to that decision, true when quarantine is active and false when
    it is not, with its other fields as they were, and every other
    individual is as it was; the pass has made one draw per infected
    individual and healthy individual in contact, and the pending exposures
    are, without repetition, the targets of the draws that are below
    [infectionRate * quarantineReductionFactor] when quarantine is active,
    below [infectionRate] when it is not. *)
Theorem quarantine_round pop params k :
  let active := spec_quarantineActive pop params in
  let rate := if active
              then (infectionRate params * quarantineReductionFactor params)%float
              else infectionRate params in
  quarantineActive pop params = active
  /\ effectiveInfectionRate pop params = rate
  /\ length (afterExposurePass pop params k) = length pop
  /\ (forall i p, pop !! i = Some p ->
       exists q, afterExposurePass pop params k !! i = Some q
         /\ (state p = "infected" ->
             quarantined q = active
             /\ id q = id p /\ x q = x p /\ y q = y p /\ state q = state p
             /\ daysExposed q = daysExposed p /\ daysInfected q = daysInfected p
             /\ newlyExposed q = newlyExposed p
             /\ newlyInfected q = newlyInfected p)
         /\ (state p <> "infected" -> q = p))
  /\ NoDup (pendingExposures pop params k)
  /\ (forall j, j ∈ pendingExposures pop params k
                <-> j ∈ successes rate (trialTargets pop pop) k)
  /\ updatePopulation pop params k
     = advancePass params
         (commitExposures (pendingExposures pop params k)
            (afterExposurePass pop params k))
         (k + length (trialTargets pop pop)).
Proof.
  intros active rate.
  assert (Hspec := scanFrom_spec (effectiveInfectionRate pop params) pop pop [] k
                     NoDup_nil_2).
  cbn zeta in Hspec. destruct Hspec as (Hk & Hnd & Hmem).
  assert (Hactive : quarantineActive pop params = active)
    by apply spec_quarantineActive_eq.
  split; [exact Hactive|].
  split; [unfold effectiveInfectionRate, rate; now rewrite Hactive|].
  split; [now rewrite afterExposurePass_eq, length_fmap|].
  split.
  { intros i p Hl.
    exists (markQuarantine (quarantineActive pop params) p).
    split; [now rewrite afterExposurePass_eq, list_lookup_fmap, Hl|].
    unfold markQuarantine, in_state. split.
    - intros Hs. rewrite (proj2 (String.eqb_eq _ _) Hs), Hactive. cbn. tauto.
    - intros Hs. now rewrite (proj2 (String.eqb_neq _ _) Hs). }
  split; [unfold pendingExposures; now rewrite exposurePass_eq|].
  split.
  - intros j. unfold pendingExposures. rewrite exposurePass_eq. cbn [fst snd].
    rewrite Hmem, elem_of_nil.
    assert (Hrate : effectiveInfectionRate pop params = rate)
      by (unfold effectiveInfectionRate, rate; now rewrite Hactive).
    rewrite Hrate. tauto.
  - rewrite updatePopulation_unfold. f_equal.
    rewrite exposurePass_eq. exact Hk.
Qed.

(** ** Further properties of a round *)

Lemma roundOf_flags params active pending k p :
  flags_consistent p -> (pending = true -> state p = "healthy") ->
  flags_consistent (roundOf params active pending k p).
Proof.
  unfold flags_consistent. intros (Hq & He & Hi) Hp.
  round_cases; intuition congruence.
Qed.

Lemma roundOf_stateStep params active pending k p :
  (pending = true -> state p = "healthy") ->
  stateStep params (state p) (state (roundOf params active pending k p)).
Proof.
  intros Hp. unfold stateStep.
  round_cases;
    repeat match goal with
      | H : (_ <=? _)%Z = true |- _ => apply Z.leb_le in H; cbn in H
      end;
    intuition (try congruence; try lia).
Qed.

Lemma observable_flags pop : observable pop -> Forall flags_consistent pop.
Proof.
  induction 1 as [size k pop k' Hcreate | pop params k _ IH].
  - destruct (createPopulation_base size k pop k' Hcreate)
      as (n & i & _ & _ & _ & ->).
    apply Forall_insert.
    + apply Forall_fmap, Forall_forall. intros j _.
      unfold flags_consistent. cbn. intuition congruence.
    + unfold flags_consistent. cbn. intuition congruence.
  - apply (Forall2_Forall_r _ flags_consistent _ _
             (updatePopulation_pointwise pop params k)).
    apply Forall_forall. intros p Hp p' (pending & kj & Hpending & ->).
    rewrite Forall_forall in IH. now apply roundOf_flags; [apply IH|].
Qed.

(** At every point the driver can observe, an individual with its
    [quarantined] flag up is in state [infected]. *)
Theorem quarantined_only_when_infected pop :
  observable pop ->
  Forall (fun p => quarantined p = true -> state p = "infected") pop.
Proof.
  intros Hobs. apply (Forall_impl _ _ _ (observable_flags pop Hobs)).
  now intros p (Hq & _).
Qed.

(** At every point the driver can observe, no individual has its
    [newlyExposed] flag up, and an individual with its [newlyInfected] flag
    up is [infected] with [daysInfected = 0]. *)
Theorem display_flags_when_observable pop :
  observable pop ->
  Forall (fun p => newlyExposed p = false
                   /\ (newlyInfected p = true ->
                       state p = "infected" /\ daysInfected p = 0)) pop.
Proof.
  intros Hobs. apply (Forall_impl _ _ _ (observable_flags pop Hobs)).
  now intros p (_ & He & Hi).
Qed.

(** One call of [updatePopulation] moves an individual along the cycle
    healthy, exposed, infected, recovered, healthy by at most one step, or
    by the two steps healthy, exposed, infected when [incubationTime <= 1];
    a state outside the four is kept. *)
Theorem state_transitions pop params k j p :
  pop !! j = Some p ->
  exists p', (updatePopulation pop params k).1 !! j = Some p'
             /\ stateStep params (state p) (state p').
Proof.
  intros Hl.
  destruct (updatePopulation_lookup pop params k j p Hl) as [kj Hu].
  eexists. split; [exact Hu|].
  apply roundOf_stateStep. intros Hin. apply bool_decide_eq_true in Hin.
  apply pendingExposures_healthy in Hin as (o & Ho & Hs). congruence.
Qed.

(** A healthy individual that is within the contact radius of no infected
    individual is returned as it was, whatever the draws. *)
Theorem out_of_reach_unchanged pop params k j o :
  pop !! j = Some o -> state o = "healthy" ->
  (forall p, p ∈ pop -> state p = "infected" -> inContact p o = false) ->
  (updatePopulation pop params k).1 !! j = Some o.
Proof.
  intros Hl Hs Hfar.
  destruct (updatePopulation_lookup pop params k j o Hl) as [kj Hu].
  rewrite bool_decide_eq_false_2 in Hu.
  - rewrite Hu. f_equal.
    unfold roundOf, markQuarantine, advanceIndividual, in_state.
    rewrite Hs. cbn. now rewrite Hs.
  - intros Hin.
    apply pendingExposures_contact in Hin as (p & o' & Hp & Hinf & Hl' & _ & Hc).
    rewrite Hl in Hl'. injection Hl' as <-.
    rewrite (Hfar p Hp Hinf) in Hc. discriminate.
Qed.

(** *** Which trials a round makes *)

Lemma contactsOf_complete p others : forall j i o,
  others !! i = Some o -> state o = "healthy" -> inContact p o = true ->
  j + i ∈ contactsOf p others j.
Proof.
  induction others as [|o' rest IH]; intros j i o Hl Hs Hc; [discriminate|].
  cbn [contactsOf]. destruct i as [|i]; cbn in Hl.
  - injection Hl as ->. apply in_state_true in Hs. rewrite Hs, Hc. cbn.
    rewrite Nat.add_0_r. apply list_elem_of_here.
  - replace (j + S i) with (S j + i) by lia.
    destruct (in_state "healthy" o' && inContact p o');
      [apply list_elem_of_further|]; now apply (IH (S j) i o).
Qed.

Lemma trialTargets_complete whole ps p j o :
  p ∈ ps -> state p = "infected" ->
  whole !! j = Some o -> state o = "healthy" -> inContact p o = true ->
  j ∈ trialTargets whole ps.
Proof.
  intros Hp Hinf Hl Hs Hc.
  induction ps as [|q rest IH]; [now apply elem_of_nil in Hp|].
  cbn [trialTargets]. apply elem_of_cons in Hp as [<-|Hp].
  - apply in_state_true in Hinf. rewrite Hinf. apply elem_of_app. left.
    exact (contactsOf_complete p whole 0 j o Hl Hs Hc).
  - destruct (in_state "infected" q); [apply elem_of_app; right|]; now apply IH.
Qed.

Lemma successes_all rate l : forall k,
  (forall t, PrimFloat.ltb (random t) rate = true) -> successes rate l k = l.
Proof.
  induction l as [|j l IH]; intros k Hall; cbn [successes]; [reflexivity|].
  now rewrite Hall, IH.
Qed.

Lemma successes_none rate l : forall k,
  (forall t, PrimFloat.ltb (random t) rate = false) -> successes rate l k = [].
Proof.
  induction l as [|j l IH]; intros k Hnone; cbn [successes]; [reflexivity|].
  now rewrite Hnone, IH.
Qed.

Lemma pendingExposures_successes pop params k j :
  j ∈ pendingExposures pop params k
  <-> j ∈ successes (effectiveInfectionRate pop params) (trialTargets pop pop) k.
Proof.
  unfold pendingExposures. rewrite exposurePass_eq. cbn [fst snd].
  destruct (scanFrom_spec (effectiveInfectionRate pop params) pop pop [] k
              NoDup_nil_2) as (_ & _ & Hmem).
  rewrite Hmem, elem_of_nil. tauto.
Qed.

Lemma roundOf_pending_state params active k p :
  state (roundOf params active true k p)
  = if (incubationTime params <=? 1)%Z then "infected" else "exposed".
Proof.
  unfold roundOf, markQuarantine, advanceIndividual, markExposed, in_state.
  destruct (state p =? "infected")%string; cbn;
    change (Z.of_nat 1) with 1%Z;
    destruct (incubationTime params <=? 1)%Z; reflexivity.
Qed.

(** When every draw is below the effective rate, every healthy individual
    within the contact radius of an infected one leaves the round exposed,
    or infected when [incubationTime <= 1]. *)
Theorem certain_transmission pop params k p j o :
  (forall t, PrimFloat.ltb (random t) (effectiveInfectionRate pop params) = true) ->
  p ∈ pop -> state p = "infected" ->
  pop !! j = Some o -> state o = "healthy" -> inContact p o = true ->
  j ∈ pendingExposures pop params k
  /\ exists o', (updatePopulation pop params k).1 !! j = Some o'
                /\ state o' = if (incubationTime params <=? 1)%Z
                              then "infected" else "exposed".
Proof.
  intros Hall Hp Hinf Hl Hs Hc.
  assert (Hin : j ∈ pendingExposures pop params k).
  { apply pendingExposures_successes. rewrite successes_all by exact Hall.
    exact (trialTargets_complete pop pop p j o Hp Hinf Hl Hs Hc). }
  split; [exact Hin|].
  destruct (updatePopulation_lookup pop params k j o Hl) as [kj Hu].
  rewrite (bool_decide_eq_true_2 _ Hin) in Hu.
  eexists. split; [exact Hu|]. apply roundOf_pending_state.
Qed.

(** A draw is never below a probability of zero multiplied by a factor. *)
Lemma draw_not_below_zero_product r q f :
  PrimFloat.leb 0 r = true -> PrimFloat.eqb q 0 = true ->
  PrimFloat.ltb r (q * f)%float = false.
Proof.
  rewrite FloatAxioms.leb_spec, FloatAxioms.eqb_spec, FloatAxioms.ltb_spec,
    FloatAxioms.mul_spec.
  change (Prim2SF 0) with (S754_zero false).
  destruct (Prim2SF r) as [[]|[]| |[] mr er], (Prim2SF q) as [[]|[]| |[] mq eq],
    (Prim2SF f) as [[]|[]| |[] mf ef];
    cbn; congruence.
Qed.

(** With [infectionRate == 0] a round exposes nobody: there is no pending
    exposure and every healthy individual is returned as it was. *)
Theorem no_transmission_at_rate_zero pop params k :
  draws_in_unit_interval ->
  PrimFloat.eqb (infectionRate params) 0 = true ->
  pendingExposures pop params k = []
  /\ forall j o, pop !! j = Some o -> state o = "healthy" ->
                 (updatePopulation pop params k).1 !! j = Some o.
Proof.
  intros Hdraw Hzero.
  assert (Hnone : forall t,
    PrimFloat.ltb (random t) (effectiveInfectionRate pop params) = false).
  { intros t. unfold effectiveInfectionRate.
    destruct (quarantineActive pop params).
    - apply draw_not_below_zero_product; [apply Hdraw | exact Hzero].
    - apply draw_not_below_zero; [apply Hdraw | exact Hzero]. }
  assert (Hnil : pendingExposures pop params k = []).
  { apply elem_of_nil_inv. intros j Hin.
    apply pendingExposures_successes in Hin.
    rewrite successes_none in Hin by exact Hnone. now apply elem_of_nil in Hin. }
  split; [exact Hnil|].
  intros j o Hl Hs.
  destruct (updatePopulation_lookup pop params k j o Hl) as [kj Hu].
  rewrite Hnil, bool_decide_eq_false_2 in Hu by apply not_elem_of_nil.
  rewrite Hu. f_equal.
  unfold roundOf, markQuarantine, advanceIndividual, in_state.
  rewrite Hs. cbn. now rewrite Hs.
Qed.

(** *** The draws of a round *)

Lemma advanceIndividual_draws params p k :
  (advanceIndividual params p k).2 = if in_state "recovered" p then S k else k.
Proof.
  unfold advanceIndividual, in_state.
  destruct (state p =? "exposed")%string eqn:He.
  - apply String.eqb_eq in He. rewrite He. cbn. now destruct (_ <=? _)%Z.
  - destruct (state p =? "infected")%string eqn:Hi.
    + apply String.eqb_eq in Hi. rewrite Hi. cbn. now destruct (_ <=? _)%Z.
    + destruct (state p =? "recovered")%string; [|reflexivity].
      now destruct (PrimFloat.ltb _ _).
Qed.

Lemma advancePass_draws params pop : forall k,
  (advancePass params pop k).2 = k + count_state "recovered" pop.
Proof.
  induction pop as [|p rest IH]; intros k; [cbn; lia|].
  cbn [advancePass]. rewrite count_state_cons.
  pose proof (advanceIndividual_draws params p k) as Hp.
  destruct (advanceIndividual params p k) as [p' k']. cbn [snd] in Hp.
  specialize (IH k'). destruct (advancePass params rest k') as [rest' k''].
  cbn [snd] in IH |- *. rewrite IH, Hp.
  destruct (in_state "recovered" p); lia.
Qed.

Lemma count_state_pointwise s l : forall l',
  length l = length l' ->
  (forall j a b, l !! j = Some a -> l' !! j = Some b -> in_state s a = in_state s b) ->
  count_state s l = count_state s l'.
Proof.
  induction l as [|a l IH]; intros [|b l'] Hlen Hpt; try discriminate; [reflexivity|].
  rewrite !count_state_cons, (Hpt 0 a b eq_refl eq_refl).
  f_equal. apply IH; [now injection Hlen|].
  intros j a' b' Ha Hb. exact (Hpt (S j) a' b' Ha Hb).
Qed.

Lemma exposure_and_commit_accounting pop params k :
  (exposurePass (quarantineActive pop params)
     (effectiveInfectionRate pop params) pop k).2
  = k + length (trialTargets pop pop)
  /\ count_state "recovered"
       (commitExposures (pendingExposures pop params k)
          (afterExposurePass pop params k))
     = count_state "recovered" pop.
Proof.
  split.
  - rewrite exposurePass_eq. cbn [snd].
    now destruct (scanFrom_spec (effectiveInfectionRate pop params) pop pop [] k
                    NoDup_nil_2) as (Hk & _).
  - apply count_state_pointwise.
    + now rewrite commitExposures_length, afterExposurePass_eq, length_fmap.
    + intros j a b Ha Hb.
      rewrite commitExposures_lookup, afterExposurePass_eq, list_lookup_fmap, Hb in Ha.
      cbn in Ha. injection Ha as <-.
      destruct (bool_decide _) eqn:Hin.
      * apply bool_decide_eq_true in Hin.
        apply pendingExposures_healthy in Hin as (o & Ho & Hs).
        rewrite Hb in Ho. injection Ho as <-.
        unfold in_state. cbn. now rewrite Hs.
      * unfold in_state, markQuarantine, in_state.
        now destruct (state b =? "infected")%string.
Qed.

(** A round makes one draw per infected individual and healthy individual
    in contact, then one draw per recovered individual, and no other. *)
Theorem draws_of_a_round pop params k :
  (updatePopulation pop params k).2
  = k + length (trialTargets pop pop) + count_state "recovered" pop.
Proof.
  destruct (exposure_and_commit_accounting pop params k) as [Hk Hrec].
  rewrite updatePopulation_unfold, advancePass_draws, Hk, Hrec. reflexivity.
Qed.

(** ** What createPopulation returns *)

Lemma count_state_app s l1 l2 :
  count_state s (l1 ++ l2) = count_state s l1 + count_state s l2.
Proof. unfold count_state. now rewrite List.filter_app, length_app. Qed.

Lemma count_state_all_healthy l :
  Forall (fun p => state p = "healthy") l ->
  count_state "healthy" l = length l /\ count_state "infected" l = 0.
Proof.
  induction 1 as [|p l Hp _ [IHh IHi]]; [now split|].
  rewrite !count_state_cons, IHh, IHi. unfold in_state. rewrite Hp. now split.
Qed.

Lemma createPopulation_ids size k pop k' :
  createPopulation size k = (inr pop, k') ->
  pushes size (length pop) /\ id <$> pop = seq 0 (length pop).
Proof.
  intros H.
  destruct (createPopulation_base size k pop k' H) as (n & i & Hn & Hi & _ & ->).
  rewrite length_insert, length_fmap, length_seq. split; [exact Hn|].
  rewrite list_fmap_insert, list_insert_id.
  - rewrite <- list_fmap_compose.
    rewrite <- (list_fmap_id (seq 0 n)) at 2. now apply list_fmap_ext.
  - now rewrite !list_lookup_fmap, lookup_seq_lt by exact Hi.
Qed.

(** When [createPopulation] returns, it returns one individual per counter
    value below [size]: their number is the first counter that is not below
    [size].  The [id] of each is its position, exactly one of them is
    infected (patient zero) and all others are healthy, every counter is at
    zero and every flag down. *)
Theorem createPopulation_patient_zero size k pop k' :
  createPopulation size k = (inr pop, k') ->
  pushes size (length pop)
  /\ id <$> pop = seq 0 (length pop)
  /\ count_state "infected" pop = 1
  /\ count_state "healthy" pop = length pop - 1
  /\ Forall pristine pop.
Proof.
  intros H. destruct (createPopulation_ids size k pop k' H) as [Hlen Hid].
  split; [exact Hlen|]. split; [exact Hid|].
  destruct (createPopulation_base size k pop k' H) as (n & i & _ & Hi & _ & ->).
  set (base := newIndividual (PrimFloat.sqrt size) <$> seq 0 n).
  assert (Hbase : length base = n) by (unfold base; now rewrite length_fmap, length_seq).
  assert (Hhealthy : Forall (fun p => state p = "healthy") base).
  { unfold base. apply Forall_fmap, Forall_forall. now intros j _. }
  rewrite length_insert, Hbase.
  split; [|split].
  - rewrite insert_take_drop by lia. rewrite count_state_app, count_state_cons.
    destruct (count_state_all_healthy _ (Forall_take _ i _ Hhealthy)) as [_ ->].
    destruct (count_state_all_healthy _ (Forall_drop _ (S i) _ Hhealthy)) as [_ ->].
    reflexivity.
  - rewrite insert_take_drop by lia. rewrite count_state_app, count_state_cons.
    destruct (count_state_all_healthy _ (Forall_take _ i _ Hhealthy)) as [-> _].
    destruct (count_state_all_healthy _ (Forall_drop _ (S i) _ Hhealthy)) as [-> _].
    rewrite length_take, length_drop. cbn. lia.
  - apply Forall_insert.
    + unfold base. apply Forall_fmap, Forall_forall. intros j _.
      unfold pristine. cbn. tauto.
    + unfold pristine. cbn. tauto.
Qed.

(** With no position to draw from, [createPopulation] fails on the
    assignment to patient zero, whatever [Math.random()] returns. *)
Theorem createPopulation_empty_fails k :
  createPopulation 0 k = (inl TypeError, S k).
Proof.
  unfold createPopulation.
  change (pushLoop (newIndividual (PrimFloat.sqrt 0)) 0) with (Some (@nil individual)).
  unfold JsNumber.get. cbn [length].
  destruct (JsNumber.to_index _) as [z|]; [|reflexivity].
  now destruct (z <? Z.of_nat 0)%Z.
Qed.

(** ** Rounds in sequence *)

Lemma runRounds_S params n : forall pop k,
  runRounds (S n) pop params k
  = updatePopulation (runRounds n pop params k).1 params (runRounds n pop params k).2.
Proof.
  induction n as [|n IH]; intros pop k.
  - cbn. now destruct (updatePopulation pop params k).
  - change (runRounds (S (S n)) pop params k)
      with (let '(pop', k') := updatePopulation pop params k in
            runRounds (S n) pop' params k').
    change (runRounds (S n) pop params k)
      with (let '(pop', k') := updatePopulation pop params k in
            runRounds n pop' params k').
    destruct (updatePopulation pop params k) as [pop' k']. apply IH.
Qed.

Lemma updatePopulation_lookup_settled pop params k j p :
  pop !! j = Some p -> state p <> "healthy" ->
  exists kj, (updatePopulation pop params k).1 !! j
             = Some (roundOf params (quarantineActive pop params) false kj p).
Proof.
  intros Hl Hs.
  destruct (updatePopulation_lookup pop params k j p Hl) as [kj Hu].
  exists kj. rewrite Hu, bool_decide_eq_false_2; [reflexivity|].
  intros Hin. apply pendingExposures_healthy in Hin as (o & Ho & Hh). congruence.
Qed.

Lemma roundOf_exposed params active k p :
  state p = "exposed" ->
  let p' := roundOf params active false k p in
  if (incubationTime params <=? Z.of_nat (daysExposed p + 1))%Z
  then state p' = "infected" /\ daysInfected p' = 0 /\ newlyInfected p' = true
  else state p' = "exposed" /\ daysExposed p' = daysExposed p + 1.
Proof.
  intros Hs. unfold roundOf, markQuarantine, advanceIndividual, in_state.
  rewrite Hs. cbn. rewrite Hs. cbn.
  destruct (newlyExposed p); cbn; destruct (_ <=? _)%Z; cbn; auto.
Qed.

Lemma roundOf_infected params active k p :
  state p = "infected" ->
  let p' := roundOf params active false k p in
  if (recoveryTime params <=? Z.of_nat (daysInfected p + 1))%Z
  then state p' = "recovered" /\ daysInfected p' = 0 /\ quarantined p' = false
  else state p' = "infected" /\ daysInfected p' = daysInfected p + 1
       /\ quarantined p' = active.
Proof.
  intros Hs. unfold roundOf, markQuarantine, advanceIndividual, in_state.
  rewrite Hs. cbn. rewrite Hs. cbn.
  destruct (newlyInfected p); cbn; destruct (_ <=? _)%Z; cbn; auto.
Qed.

Lemma stays_exposed params j d n : forall pop k p,
  pop !! j = Some p -> state p = "exposed" -> daysExposed p = d ->
  (Z.of_nat (d + n) < incubationTime params)%Z ->
  exists p', (runRounds n pop params k).1 !! j = Some p'
             /\ state p' = "exposed" /\ daysExposed p' = d + n.
Proof.
  induction n as [|n IH]; intros pop k p Hl Hs Hd Hlt.
  - exists p. cbn. rewrite Nat.add_0_r. auto.
  - destruct (IH pop k p Hl Hs Hd ltac:(lia)) as (q & Hq & Hqs & Hqd).
    rewrite runRounds_S.
    destruct (updatePopulation_lookup_settled (runRounds n pop params k).1 params
              (runRounds n pop params k).2 j q Hq ltac:(congruence))
      as [kj Hu].
    pose proof (roundOf_exposed params
                  (quarantineActive (runRounds n pop params k).1 params) kj q Hqs) as Hr.
    cbn zeta in Hr. rewrite Hqd in Hr.
    destruct (Z.leb_spec (incubationTime params) (Z.of_nat (d + n + 1))); [lia|].
    eexists. split; [exact Hu|]. destruct Hr as [-> ->]. split; [reflexivity | lia].
Qed.

Lemma stays_infected params j d n : forall pop k p,
  pop !! j = Some p -> state p = "infected" -> daysInfected p = d ->
  (Z.of_nat (d + n) < recoveryTime params)%Z ->
  exists p', (runRounds n pop params k).1 !! j = Some p'
             /\ state p' = "infected" /\ daysInfected p' = d + n.
Proof.
  induction n as [|n IH]; intros pop k p Hl Hs Hd Hlt.
  - exists p. cbn. rewrite Nat.add_0_r. auto.
  - destruct (IH pop k p Hl Hs Hd ltac:(lia)) as (q & Hq & Hqs & Hqd).
    rewrite runRounds_S.
    destruct (updatePopulation_lookup_settled (runRounds n pop params k).1 params
              (runRounds n pop params k).2 j q Hq ltac:(congruence))
      as [kj Hu].
    pose proof (roundOf_infected params
                  (quarantineActive (runRounds n pop params k).1 params) kj q Hqs) as Hr.
    cbn zeta in Hr. rewrite Hqd in Hr.
    destruct (Z.leb_spec (recoveryTime params) (Z.of_nat (d + n + 1))); [lia|].
    eexists. split; [exact Hu|]. destruct Hr as (-> & -> & _). split; [reflexivity | lia].
Qed.

(** An exposed individual with [incubationTime = daysExposed + n + 1] is
    exposed on return from each of the next [n] rounds, its counter one
    higher after each, and is infected, with [daysInfected = 0] and
    [newlyInfected] up, on return from the round after them. *)
Theorem incubation_period pop params k j p n :
  pop !! j = Some p -> state p = "exposed" ->
  incubationTime params = Z.of_nat (daysExposed p + n + 1) ->
  (forall m, m <= n ->
     exists p', (runRounds m pop params k).1 !! j = Some p'
                /\ state p' = "exposed" /\ daysExposed p' = daysExposed p + m)
  /\ exists p', (runRounds (S n) pop params k).1 !! j = Some p'
                /\ state p' = "infected" /\ daysInfected p' = 0
                /\ newlyInfected p' = true.
Proof.
  intros Hl Hs HT.
  assert (Hstay : forall m, m <= n ->
     exists p', (runRounds m pop params k).1 !! j = Some p'
                /\ state p' = "exposed" /\ daysExposed p' = daysExposed p + m).
  { intros m Hm. apply (stays_exposed params j (daysExposed p) m pop k p); auto. lia. }
  split; [exact Hstay|].
  destruct (Hstay n (le_n n)) as (q & Hq & Hqs & Hqd).
  rewrite runRounds_S.
  destruct (updatePopulation_lookup_settled (runRounds n pop params k).1 params
              (runRounds n pop params k).2 j q Hq ltac:(congruence))
    as [kj Hu].
  pose proof (roundOf_exposed params
                (quarantineActive (runRounds n pop params k).1 params) kj q Hqs) as Hr.
  cbn zeta in Hr. rewrite Hqd, HT in Hr.
  rewrite (proj2 (Z.leb_le _ _)) in Hr by lia.
  eexists. split; [exact Hu | exact Hr].
Qed.

(** An infected individual with [recoveryTime = daysInfected + n + 1] is
    infected on return from each of the next [n] rounds, its counter one
    higher after each, and is recovered, with [daysInfected = 0] and out of
    quarantine, on return from the round after them. *)
Theorem recovery_period pop params k j p n :
  pop !! j = Some p -> state p = "infected" ->
  recoveryTime params = Z.of_nat (daysInfected p + n + 1) ->
  (forall m, m <= n ->
     exists p', (runRounds m pop params k).1 !! j = Some p'
                /\ state p' = "infected" /\ daysInfected p' = daysInfected p + m)
  /\ exists p', (runRounds (S n) pop params k).1 !! j = Some p'
                /\ state p' = "recovered" /\ daysInfected p' = 0
                /\ quarantined p' = false.
Proof.
  intros Hl Hs HT.
  assert (Hstay : forall m, m <= n ->
     exists p', (runRounds m pop params k).1 !! j = Some p'
                /\ state p' = "infected" /\ daysInfected p' = daysInfected p + m).
  { intros m Hm. apply (stays_infected params j (daysInfected p) m pop k p); auto. lia. }
  split; [exact Hstay|].
  destruct (Hstay n (le_n n)) as (q & Hq & Hqs & Hqd).
  rewrite runRounds_S.
  destruct (updatePopulation_lookup_settled (runRounds n pop params k).1 params
              (runRounds n pop params k).2 j q Hq ltac:(congruence))
    as [kj Hu].
  pose proof (roundOf_infected params
                (quarantineActive (runRounds n pop params k).1 params) kj q Hqs) as Hr.
  cbn zeta in Hr. rewrite Hqd, HT in Hr.
  rewrite (proj2 (Z.leb_le _ _)) in Hr by lia.
  eexists. split; [exact Hu | exact Hr].
Qed.

(** On return from a round, an individual that was infected either is
    still infected, one day older and with [quarantined] equal to the
    quarantine decision of the round, or has recovered, with its counter at
    zero and [quarantined] down. *)
Theorem infected_on_return pop params k j p :
  pop !! j = Some p -> state p = "infected" ->
  exists p', (updatePopulation pop params k).1 !! j = Some p'
    /\ ((state p' = "infected" /\ daysInfected p' = daysInfected p + 1
         /\ quarantined p' = quarantineActive pop params)
        \/ (state p' = "recovered" /\ daysInfected p' = 0
            /\ quarantined p' = false)).
Proof.
  intros Hl Hs.
  destruct (updatePopulation_lookup_settled pop params k j p Hl ltac:(congruence))
    as [kj Hu].
  eexists. split; [exact Hu|].
  pose proof (roundOf_infected params (quarantineActive pop params) kj p Hs) as Hr.
  cbn zeta in Hr. destruct (_ <=? _)%Z; [now right | now left].
Qed.

(** With [reinfectionProbability == 0], a recovered individual is returned
    as it was by every round. *)
Theorem immunity_without_reinfection pop params k j p n :
  draws_in_unit_interval ->
  PrimFloat.eqb (reinfectionProbability params) 0 = true ->
  pop !! j = Some p -> state p = "recovered" ->
  (runRounds n pop params k).1 !! j = Some p.
Proof.
  intros Hdraw Hzero Hl Hs.
  induction n as [|n IH]; [exact Hl|].
  rewrite runRounds_S.
  destruct (updatePopulation_lookup_settled (runRounds n pop params k).1 params
              (runRounds n pop params k).2 j p IH ltac:(congruence))
    as [kj Hu].
  rewrite Hu. f_equal.
  unfold roundOf, markQuarantine, advanceIndividual, in_state.
  rewrite Hs. cbn. rewrite Hs. cbn.
  now rewrite (draw_not_below_zero _ _ (proj1 (Hdraw kj)) Hzero).
Qed.

(** ** The driver *)

Lemma observable_valid pop : observable pop -> Forall valid_state pop.
Proof.
  induction 1 as [size k pop k' Hcreate | pop params k _ IH].
  - exact (createPopulation_valid size k pop k' Hcreate).
  - now apply updatePopulation_valid.
Qed.

Lemma observable_ids pop : observable pop -> id <$> pop = seq 0 (length pop).
Proof.
  induction 1 as [size k pop k' Hcreate | pop params k _ IH].
  - destruct (createPopulation_ids size k pop k' Hcreate) as [_ Hid].
    exact Hid.
  - rewrite updatePopulation_length, <- IH.
    apply list_eq. intros j. rewrite !list_lookup_fmap.
    destruct (pop !! j) as [p|] eqn:Hl.
    + destruct (updatePopulation_lookup pop params k j p Hl) as [kj ->].
      cbn. f_equal.
      now pose proof (f_equal (fun t => t.1.1)
                        (roundOf_fixedFields params (quarantineActive pop params)
                           (bool_decide (j ∈ pendingExposures pop params k)) kj p)).
    + apply lookup_ge_None in Hl.
      rewrite (proj2 (lookup_ge_None _ j)); [reflexivity|].
      now rewrite updatePopulation_length.
Qed.






(** *** What is rendered *)

Lemma renderPatients_markers pop :
  (renderPatients pop).2 = renderPatient <$> take maxSize pop.
Proof.
  unfold renderPatients. cbn [snd].
  destruct (Nat.ltb_spec maxSize (length pop)); [reflexivity|].
  now rewrite take_ge by lia.
Qed.

(** [renderPatients] renders the first [maxSize] individuals, in order, or
    all of them when there are fewer, and warns exactly when it leaves some
    out; the warning carries [maxSize] and the size of the population. *)
Theorem rendered_subset pop :
  (renderPatients pop).2 = renderPatient <$> take maxSize pop
  /\ length (renderPatients pop).2 = Nat.min maxSize (length pop)
  /\ ((renderPatients pop).1 = None <-> length pop <= maxSize)
  /\ forall w, (renderPatients pop).1 = Some w ->
               shown w = maxSize /\ total w = length pop.
Proof.
  split; [apply renderPatients_markers|].
  split; [now rewrite renderPatients_markers, length_fmap, length_take|].
  unfold renderPatients. cbn [fst].
  destruct (Nat.ltb_spec maxSize (length pop)) as [Hlt|Hle]; split.
  - split; [discriminate | lia].
  - intros w H. injection H as <-. now split.
  - split; [intros _; exact Hle | reflexivity].
  - discriminate.
Qed.

(** The markers rendered for a population that the driver can hold have the
    keys 0, 1, 2, ... in order: no two markers share a key. *)
Theorem marker_keys_distinct pop :
  observable pop ->
  key <$> (renderPatients pop).2 = seq 0 (Nat.min maxSize (length pop))
  /\ NoDup (key <$> (renderPatients pop).2).
Proof.
  intros Hobs.
  assert (Hkeys : key <$> (renderPatients pop).2
                  = seq 0 (Nat.min maxSize (length pop))).
  { rewrite renderPatients_markers, <- list_fmap_compose.
    change (key ∘ renderPatient) with id.
    rewrite fmap_take, (observable_ids pop Hobs). apply take_seq. }
  split; [exact Hkeys|]. rewrite Hkeys. apply NoDup_seq.
Qed.

Lemma renderEmoji_faithful p q :
  valid_state p -> valid_state q -> flags_consistent p -> flags_consistent q ->
  renderEmoji p <> "🤧"
  /\ (renderEmoji p = renderEmoji q ->
      state p = state q /\ quarantined p = quarantined q).
Proof.
  unfold flags_consistent, renderEmoji, in_state.
  intros Hp Hq (Hpq & -> & _) (Hqq & -> & _).
  destruct (quarantined p) eqn:Qp, (quarantined q) eqn:Qq;
    destruct Hp as [Sp|[Sp|[Sp|Sp]]], Hq as [Sq|[Sq|[Sq|Sq]]];
    rewrite Sp, Sq in *; cbn;
    (split; [discriminate|]); intros He;
    first [ discriminate He
          | now split
          | exfalso; (discriminate (Hpq eq_refl) || discriminate (Hqq eq_refl)) ].
Qed.

(** On the populations that the driver can hold, the sneezing face is never
    rendered, and two individuals rendered with the same emoji are in the
    same state and have the same [quarantined] flag. *)
Theorem emoji_tells_state pop pop' p q :
  observable pop -> observable pop' -> p ∈ pop -> q ∈ pop' ->
  renderEmoji p <> "🤧"
  /\ (renderEmoji p = renderEmoji q ->
      state p = state q /\ quarantined p = quarantined q).
Proof.
  intros Hobs Hobs' Hp Hq.
  pose proof (observable_valid pop Hobs) as Hv.
  pose proof (observable_valid pop' Hobs') as Hv'.
  pose proof (observable_flags pop Hobs) as Hf.
  pose proof (observable_flags pop' Hobs') as Hf'.
  rewrite Forall_forall in Hv, Hv', Hf, Hf'.
  apply renderEmoji_faithful; auto.
Qed.

(** ** Configurations that the specification calls invalid *)

(** C5 as the code has it. [createPopulation] checks nothing about [size]:
    for every number [size], perfect square or not, when the loop makes [n]
    pushes, fewer than the capacity of an array, and the position drawn for
    patient zero is one of the [n] positions, it returns a population of
    [n] individuals.  [updatePopulation] checks nothing about the
    parameters: for every parameter set it returns a population of the same
    length, in which the trials have compared each draw with the infection
    rate as given, times the reduction factor as given when quarantine is
    active; an exposed individual returns infected when [incubationTime] is
    zero or less, an infected one returns recovered when [recoveryTime] is
    zero or less. *)
Theorem no_validation size n k z pop params k2 :
  pushes size n -> (Z.of_nat n < 2 ^ 32)%Z ->
  patientZeroIndex size k = Some z -> (z < Z.of_nat n)%Z ->
  (exists created,
     createPopulation size k = (inr created, S k) /\ length created = n)
  /\ length (updatePopulation pop params k2).1 = length pop
  /\ (forall j, j ∈ pendingExposures pop params k2
                <-> j ∈ successes
                      (if quarantineActive pop params
                       then (infectionRate params * quarantineReductionFactor params)%float
                       else infectionRate params)
                      (trialTargets pop pop) k2)
  /\ (forall j p, pop !! j = Some p -> state p = "exposed" ->
       (incubationTime params <= 0)%Z ->
       exists p', (updatePopulation pop params k2).1 !! j = Some p'
                  /\ state p' = "infected")
  /\ (forall j p, pop !! j = Some p -> state p = "infected" ->
       (recoveryTime params <= 0)%Z ->
       exists p', (updatePopulation pop params k2).1 !! j = Some p'
                  /\ state p' = "recovered").
Proof.
  intros Hn Hcap Hz Hlt.
  split; [exact (createPopulation_returns size k n z Hn Hcap Hz Hlt)|].
  split; [apply updatePopulation_length|].
  split; [intros j; apply pendingExposures_successes|].
  split.
  - intros j p Hl Hs Hinc.
    destruct (updatePopulation_lookup_settled pop params k2 j p Hl
                ltac:(congruence)) as [kj Hu].
    eexists. split; [exact Hu|].
    pose proof (roundOf_exposed params (quarantineActive pop params) kj p Hs) as Hr.
    cbn zeta in Hr.
    destruct (Z.leb_spec (incubationTime params) (Z.of_nat (daysExposed p + 1)))
      as [_|Hgt]; [tauto | lia].
  - intros j p Hl Hs Hrec.
    destruct (updatePopulation_lookup_settled pop params k2 j p Hl
                ltac:(congruence)) as [kj Hu].
    eexists. split; [exact Hu|].
    pose proof (roundOf_infected params (quarantineActive pop params) kj p Hs) as Hr.
    cbn zeta in Hr.
    destruct (Z.leb_spec (recoveryTime params) (Z.of_nat (daysInfected p + 1)))
      as [_|Hgt]; [tauto | lia].
Qed.

End Engine.

(** ** Instances of the theorems on the sample data *)

Ltac all_valid :=
  repeat first [ apply Forall_nil_2
               | apply Forall_cons_2; [unfold valid_state; cbn; tauto|] ].

Lemma conservation_witness :
  Forall valid_state neighbours
  /\ headcount (computeStatistics neighbours 0) = 2
  /\ Forall valid_state (updatePopulation coin neighbours sureContagion 0).1
  /\ headcount (computeStatistics (updatePopulation coin neighbours sureContagion 0).1 1) = 2.
Proof.
  assert (H : Forall valid_state neighbours) by all_valid.
  split; [exact H|].
  exact (conservation coin neighbours sureContagion 0 0 1 H).
Defined.

Lemma fresh_exposure_advanced_witness :
  1 ∈ pendingExposures coin neighbours sureContagion 0
  /\ (2 <= incubationTime sureContagion)%Z
  /\ exists p q p',
      neighbours !! 1 = Some p /\ state p = "healthy"
      /\ commitExposures (pendingExposures coin neighbours sureContagion 0)
            (afterExposurePass coin neighbours sureContagion 0) !! 1 = Some q
      /\ state q = "exposed" /\ daysExposed q = 0
      /\ (updatePopulation coin neighbours sureContagion 0).1 !! 1 = Some p'
      /\ state p' = "exposed" /\ daysExposed p' = 1.
Proof.
  assert (Hin : 1 ∈ pendingExposures coin neighbours sureContagion 0)
    by (vm_compute; apply list_elem_of_here).
  assert (Hinc : (2 <= incubationTime sureContagion)%Z) by (cbn; lia).
  split; [exact Hin|]. split; [exact Hinc|].
  exact (fresh_exposure_advanced coin neighbours sureContagion 0 1 Hin Hinc).
Defined.

Lemma incubation_of_one_round_witness :
  incubationTime quickIncubation = 1%Z
  /\ incubating !! 1 = Some (person 1 5%float 0%float "exposed" 0 0)
  /\ exists p', (updatePopulation coin incubating quickIncubation 0).1 !! 1 = Some p'
                /\ state p' = "infected" /\ daysInfected p' = 0
                /\ newlyInfected p' = true.
Proof.
  split; [reflexivity|]. split; [reflexivity|].
  exact (incubation_of_one_round coin incubating quickIncubation 0 1
           (person 1 5%float 0%float "exposed" 0 0)
           eq_refl eq_refl eq_refl eq_refl).
Defined.

(** C3. The flag [newlyExposed] is not up when [updatePopulation] returns
    from the round of the exposure: the healthy neighbour of an infected
    individual is exposed by the call (it is pending, and [exposed] on
    return), and its [newlyExposed] is [false] on return; the commit raised
    the flag, the last loop of the same call lowered it. *)
Theorem newlyExposed_lost_in_transition_round :
  1 ∈ pendingExposures coin neighbours sureContagion 0
  /\ (exists q,
        commitExposures (pendingExposures coin neighbours sureContagion 0)
          (afterExposurePass coin neighbours sureContagion 0) !! 1 = Some q
        /\ newlyExposed q = true)
  /\ exists p',
       (updatePopulation coin neighbours sureContagion 0).1 !! 1 = Some p'
       /\ state p' = "exposed" /\ newlyExposed p' = false.
Proof.
  split; [vm_compute; apply list_elem_of_here|].
  split; eexists; (split; [vm_compute; reflexivity|]); cbn; auto.
Qed.

Lemma no_spontaneous_case_witness :
  draws_in_unit_interval coin
  /\ count_state "infected" convalescent = 0
  /\ count_state "exposed" convalescent = 0
  /\ PrimFloat.eqb (reinfectionProbability sureContagion) 0 = true
  /\ state <$> (updatePopulation coin convalescent sureContagion 0).1
     = state <$> convalescent
  /\ computeStatistics (updatePopulation coin convalescent sureContagion 0).1 1
     = computeStatistics convalescent 1
  /\ state <$> (runRounds coin 3 convalescent sureContagion 0).1
     = state <$> convalescent
  /\ computeStatistics (runRounds coin 3 convalescent sureContagion 0).1 1
     = computeStatistics convalescent 1.
Proof.
  assert (Hdraw : draws_in_unit_interval coin) by (intros t; split; reflexivity).
  split; [exact Hdraw|]. split; [reflexivity|]. split; [reflexivity|].
  split; [reflexivity|].
  exact (no_spontaneous_case coin convalescent sureContagion 0 3 1
           Hdraw eq_refl eq_refl eq_refl).
Defined.

(** C4 as the specification states it fails on what [createPopulation]
    returns: patient zero is [infected] with [daysInfected = 0]. *)
Lemma counters_exact_fails_on_patient_zero :
  createPopulation coin 4 0 = (inr fourOnGrid, 1)
  /\ ~ Forall counters_exact fourOnGrid.
Proof.
  split; [vm_compute; reflexivity|].
  intros H.
  destruct (Forall_lookup_1 counters_exact fourOnGrid 2 _ H eq_refl) as [_ [Hzero _]].
  exact (Hzero eq_refl eq_refl).
Qed.

Lemma counters_at_observable_points_witness :
  observable coin (updatePopulation coin fourOnGrid listedParameters 1).1
  /\ Forall counters_reset
       (updatePopulation coin fourOnGrid listedParameters 1).1.
Proof.
  assert (Hobs : observable coin
            (updatePopulation coin fourOnGrid listedParameters 1).1).
  { apply observable_updated.
    apply (observable_created coin 4 0 fourOnGrid 1). vm_compute. reflexivity. }
  split; [exact Hobs|].
  exact (counters_at_observable_points coin _ Hobs).
Defined.

(** C5 as the specification states it fails: for the size 2, which is not
    a perfect square, [createPopulation] returns a population of two
    individuals; with parameters out of range, [updatePopulation] runs the
    round on them (the healthy neighbour is infected at once, the infected
    one recovers at once). *)
Lemma no_error_on_invalid_configuration :
  is_perfect_square 2 = false
  /\ (exists pop, createPopulation coin 2 0 = (inr pop, 1) /\ length pop = 2)
  /\ parameters_in_range outOfRange = false
  /\ exists pop',
       updatePopulation coin neighbours outOfRange 0 = (pop', 1)
       /\ state <$> pop' = ["recovered"; "infected"].
Proof.
  split; [reflexivity|].
  split; [eexists; split; [vm_compute; reflexivity | reflexivity]|].
  split; [reflexivity|].
  eexists. split; [vm_compute; reflexivity | reflexivity].
Qed.

(** The size 0 leaves no position for patient zero: the assignment to its
    [state] is made on [undefined]. *)
Lemma createPopulation_of_nothing : createPopulation coin 0 0 = (inl TypeError, 1).
Proof. reflexivity. Qed.

(** A size that is not a whole number: the loop runs while the counter is
    below it, so 2.5 gives three individuals; the square of the square root
    of 10, which is above 10, gives eleven. *)
Lemma pushes_for_two_and_a_half : pushes 2.5 3.
Proof.
  split; [|reflexivity].
  intros [|[|[|i]]] Hi; [reflexivity | reflexivity | reflexivity | lia].
Qed.

Lemma createPopulation_of_square_of_root :
  exists pop,
    createPopulation coin (PrimFloat.sqrt 10 * PrimFloat.sqrt 10) 0 = (inr pop, 1)
    /\ length pop = 11.
Proof. eexists. split; [vm_compute; reflexivity | reflexivity]. Qed.

Lemma no_validation_witness :
  pushes 2.5 3 /\ (Z.of_nat 3 < 2 ^ 32)%Z
  /\ patientZeroIndex coin 2.5 0 = Some 1%Z /\ (1 < Z.of_nat 3)%Z
  /\ (exists created,
        createPopulation coin 2.5 0 = (inr created, 1) /\ length created = 3)
  /\ length (updatePopulation coin neighbours outOfRange 0).1 = length neighbours
  /\ (forall j, j ∈ pendingExposures coin neighbours outOfRange 0
                <-> j ∈ successes coin
                      (if quarantineActive neighbours outOfRange
                       then (infectionRate outOfRange
                             * quarantineReductionFactor outOfRange)%float
                       else infectionRate outOfRange)
                      (trialTargets neighbours neighbours) 0)
  /\ (forall j p, neighbours !! j = Some p -> state p = "exposed" ->
       (incubationTime outOfRange <= 0)%Z ->
       exists p', (updatePopulation coin neighbours outOfRange 0).1 !! j = Some p'
                  /\ state p' = "infected")
  /\ (forall j p, neighbours !! j = Some p -> state p = "infected" ->
       (recoveryTime outOfRange <= 0)%Z ->
       exists p', (updatePopulation coin neighbours outOfRange 0).1 !! j = Some p'
                  /\ state p' = "recovered").
Proof.
  assert (Hcap : (Z.of_nat 3 < 2 ^ 32)%Z) by (cbn; lia).
  assert (Hz : patientZeroIndex coin 2.5 0 = Some 1%Z) by reflexivity.
  assert (Hlt : (1 < Z.of_nat 3)%Z) by (cbn; lia).
  split; [exact pushes_for_two_and_a_half|].
  split; [exact Hcap|]. split; [exact Hz|]. split; [exact Hlt|].
  exact (no_validation coin 2.5 3 0 1 neighbours outOfRange 0
           pushes_for_two_and_a_half Hcap Hz Hlt).
Defined.

(** *** Instances of the further properties *)

Lemma coin_in_unit_interval : draws_in_unit_interval coin.
Proof. intros t. split; reflexivity. Qed.

Lemma fourOnGrid_created : createPopulation coin 4 0 = (inr fourOnGrid, 1).
Proof. vm_compute. reflexivity. Qed.

Lemma fourOnGrid_observable : observable coin fourOnGrid.
Proof. exact (observable_created coin 4 0 fourOnGrid 1 fourOnGrid_created). Qed.

Lemma quarantined_only_when_infected_witness :
  observable coin (updatePopulation coin fourOnGrid sureContagion 1).1
  /\ Forall (fun p => quarantined p = true -> state p = "infected")
       (updatePopulation coin fourOnGrid sureContagion 1).1.
Proof.
  assert (Hobs : observable coin (updatePopulation coin fourOnGrid sureContagion 1).1)
    by (apply observable_updated; exact fourOnGrid_observable).
  split; [exact Hobs|].
  exact (quarantined_only_when_infected coin _ Hobs).
Defined.

Lemma display_flags_when_observable_witness :
  observable coin (updatePopulation coin fourOnGrid sureContagion 1).1
  /\ Forall (fun p => newlyExposed p = false
                      /\ (newlyInfected p = true ->
                          state p = "infected" /\ daysInfected p = 0))
       (updatePopulation coin fourOnGrid sureContagion 1).1.
Proof.
  assert (Hobs : observable coin (updatePopulation coin fourOnGrid sureContagion 1).1)
    by (apply observable_updated; exact fourOnGrid_observable).
  split; [exact Hobs|].
  exact (display_flags_when_observable coin _ Hobs).
Defined.

Lemma state_transitions_witness :
  neighbours !! 1 = Some (person 1 5%float 0%float "healthy" 0 0)
  /\ exists p', (updatePopulation coin neighbours sureContagion 0).1 !! 1 = Some p'
                /\ stateStep sureContagion "healthy" (state p').
Proof.
  split; [reflexivity|].
  exact (state_transitions coin neighbours sureContagion 0 1
           (person 1 5%float 0%float "healthy" 0 0) eq_refl).
Defined.

Lemma fourOnGrid_out_of_reach :
  forall p, p ∈ fourOnGrid -> state p = "infected" ->
            inContact p (person 0 0%float 0%float "healthy" 0 0) = false.
Proof.
  intros p Hp Hs. apply list_elem_of_In in Hp. cbn in Hp.
  destruct Hp as [<-|[<-|[<-|[<-|[]]]]]; first [reflexivity | discriminate Hs].
Qed.

Lemma out_of_reach_unchanged_witness :
  fourOnGrid !! 0 = Some (person 0 0%float 0%float "healthy" 0 0)
  /\ (updatePopulation coin fourOnGrid sureContagion 1).1 !! 0
     = Some (person 0 0%float 0%float "healthy" 0 0).
Proof.
  split; [reflexivity|].
  exact (out_of_reach_unchanged coin fourOnGrid sureContagion 1 0
           (person 0 0%float 0%float "healthy" 0 0)
           eq_refl eq_refl fourOnGrid_out_of_reach).
Defined.

Lemma certain_transmission_witness :
  (forall t, PrimFloat.ltb (coin t) (effectiveInfectionRate neighbours sureContagion) = true)
  /\ 1 ∈ pendingExposures coin neighbours sureContagion 0
  /\ exists o', (updatePopulation coin neighbours sureContagion 0).1 !! 1 = Some o'
                /\ state o' = "exposed".
Proof.
  assert (Hall : forall t,
    PrimFloat.ltb (coin t) (effectiveInfectionRate neighbours sureContagion) = true)
    by (intros t; reflexivity).
  split; [exact Hall|].
  exact (certain_transmission coin neighbours sureContagion 0
           (person 0 0%float 0%float "infected" 0 0) 1
           (person 1 5%float 0%float "healthy" 0 0)
           Hall (list_elem_of_here _ _) eq_refl eq_refl eq_refl eq_refl).
Defined.

Lemma no_transmission_at_rate_zero_witness :
  PrimFloat.eqb (infectionRate noContagion) 0 = true
  /\ pendingExposures coin neighbours noContagion 0 = []
  /\ forall j o, neighbours !! j = Some o -> state o = "healthy" ->
                 (updatePopulation coin neighbours noContagion 0).1 !! j = Some o.
Proof.
  split; [reflexivity|].
  exact (no_transmission_at_rate_zero coin neighbours noContagion 0
           coin_in_unit_interval eq_refl).
Defined.

Lemma createPopulation_patient_zero_witness :
  createPopulation coin 4 0 = (inr fourOnGrid, 1)
  /\ pushes 4 (length fourOnGrid)
  /\ id <$> fourOnGrid = seq 0 (length fourOnGrid)
  /\ count_state "infected" fourOnGrid = 1
  /\ count_state "healthy" fourOnGrid = length fourOnGrid - 1
  /\ Forall pristine fourOnGrid.
Proof.
  split; [exact fourOnGrid_created|].
  exact (createPopulation_patient_zero coin 4 0 fourOnGrid 1 fourOnGrid_created).
Defined.

Lemma incubation_period_witness :
  incubationTime sureContagion = Z.of_nat (0 + 4 + 1)
  /\ (forall m, m <= 4 ->
       exists p', (runRounds coin m incubating sureContagion 0).1 !! 1 = Some p'
                  /\ state p' = "exposed" /\ daysExposed p' = 0 + m)
  /\ exists p', (runRounds coin 5 incubating sureContagion 0).1 !! 1 = Some p'
                /\ state p' = "infected" /\ daysInfected p' = 0
                /\ newlyInfected p' = true.
Proof.
  split; [reflexivity|].
  exact (incubation_period coin incubating sureContagion 0 1
           (person 1 5%float 0%float "exposed" 0 0) 4 eq_refl eq_refl eq_refl).
Defined.

Lemma recovery_period_witness :
  recoveryTime sureContagion = Z.of_nat (0 + 13 + 1)
  /\ (forall m, m <= 13 ->
       exists p', (runRounds coin m neighbours sureContagion 0).1 !! 0 = Some p'
                  /\ state p' = "infected" /\ daysInfected p' = 0 + m)
  /\ exists p', (runRounds coin 14 neighbours sureContagion 0).1 !! 0 = Some p'
                /\ state p' = "recovered" /\ daysInfected p' = 0
                /\ quarantined p' = false.
Proof.
  split; [reflexivity|].
  exact (recovery_period coin neighbours sureContagion 0 0
           (person 0 0%float 0%float "infected" 0 0) 13 eq_refl eq_refl eq_refl).
Defined.

Lemma immunity_without_reinfection_witness :
  PrimFloat.eqb (reinfectionProbability sureContagion) 0 = true
  /\ (runRounds coin 3 convalescent sureContagion 0).1 !! 0
     = Some (person 0 0%float 0%float "recovered" 0 0).
Proof.
  split; [reflexivity|].
  exact (immunity_without_reinfection coin convalescent sureContagion 0 0
           (person 0 0%float 0%float "recovered" 0 0) 3
           coin_in_unit_interval eq_refl eq_refl eq_refl).
Defined.

Lemma infected_on_return_witness :
  neighbours !! 0 = Some (person 0 0%float 0%float "infected" 0 0)
  /\ exists p', (updatePopulation coin neighbours sureContagion 0).1 !! 0 = Some p'
    /\ ((state p' = "infected" /\ daysInfected p' = 0 + 1
         /\ quarantined p' = quarantineActive neighbours sureContagion)
        \/ (state p' = "recovered" /\ daysInfected p' = 0
            /\ quarantined p' = false)).
Proof.
  split; [reflexivity|].
  exact (infected_on_return coin neighbours sureContagion 0 0
           (person 0 0%float 0%float "infected" 0 0) eq_refl eq_refl).
Defined.




Lemma marker_keys_distinct_witness :
  observable coin fourOnGrid
  /\ key <$> (renderPatients fourOnGrid).2 = seq 0 (Nat.min maxSize (length fourOnGrid))
  /\ NoDup (key <$> (renderPatients fourOnGrid).2).
Proof.
  split; [exact fourOnGrid_observable|].
  exact (marker_keys_distinct coin fourOnGrid fourOnGrid_observable).
Defined.

Lemma emoji_tells_state_witness :
  renderEmoji (person 0 0%float 0%float "healthy" 0 0) <> "🤧"
  /\ (renderEmoji (person 0 0%float 0%float "healthy" 0 0)
      = renderEmoji (person 1 50%float 0%float "healthy" 0 0) ->
      state (person 0 0%float 0%float "healthy" 0 0)
      = state (person 1 50%float 0%float "healthy" 0 0)
      /\ quarantined (person 0 0%float 0%float "healthy" 0 0)
         = quarantined (person 1 50%float 0%float "healthy" 0 0)).
Proof.
  exact (emoji_tells_state coin fourOnGrid fourOnGrid
           (person 0 0%float 0%float "healthy" 0 0)
           (person 1 50%float 0%float "healthy" 0 0)
           fourOnGrid_observable fourOnGrid_observable
           (list_elem_of_here _ _)
           (list_elem_of_further _ _ _ (list_elem_of_here _ _))).
Defined.

(** ** Properties of the ring model *)

Module SimulationOneFacts.
Import SimulationOne.

Section Facts.

Variable random : nat -> float.

(** The fields that no assignment of the ring model targets. *)
Lemma recoverIfDue_fixed params p :
  id (recoverIfDue params p) = id p /\ x (recoverIfDue params p) = x p
  /\ y (recoverIfDue params p) = y p.
Proof.
  unfold recoverIfDue. destruct (infected p); [|auto].
  cbn. destruct (_ <=? _)%Z; auto.
Qed.

Lemma recoverIfDue_healthy params p : infected p = false -> recoverIfDue params p = p.
Proof. unfold recoverIfDue. now intros ->. Qed.

Lemma recoverIfDue_rest params p :
  counter_at_rest p -> counter_at_rest (recoverIfDue params p).
Proof.
  unfold counter_at_rest, recoverIfDue. intros Hp.
  destruct (infected p) eqn:Hi; [|intros _; now apply Hp].
  cbn. destruct (_ <=? _)%Z; cbn; [reflexivity | congruence].
Qed.

Lemma recoverIfDue_chance c params p :
  recoverIfDue (set_infectionChance c params) p = recoverIfDue params p.
Proof. reflexivity. Qed.

Lemma alter_fixpoint {A : Type} (f : A -> A) (l : list A) i :
  (forall a, l !! i = Some a -> f a = a) -> alter f i l = l.
Proof.
  intros Hf. apply list_eq. intros j.
  destruct (decide (i = j)) as [<-|Hne].
  - rewrite list_lookup_alter_eq. destruct (l !! i) as [a|] eqn:Hl; [|reflexivity].
    cbn. now rewrite Hf.
  - now rewrite list_lookup_alter_ne.
Qed.

(** What the loop over the contacts does: it leaves every position but [i]
    alone, and at [i] it either changes nothing or infects a person that was
    not infected, next to a contact that is. *)
Lemma contactLoop_spec i params contacts : forall pop k,
  let r := contactLoop random i contacts params pop k in
  k <= r.2
  /\ (r.1 = pop
      \/ exists p c contact,
           pop !! i = Some p /\ infected p = false
           /\ c ∈ contacts /\ pop !! c = Some contact /\ infected contact = true
           /\ r.1 = <[i := set_daysInfected 1 (set_infected true p)]> pop).
Proof.
  induction contacts as [|c rest IH]; intros pop k; cbn [contactLoop].
  - cbn. split; [lia | now left].
  - assert (Hrest : forall k', k <= k' ->
      let r := contactLoop random i rest params pop k' in
      k <= r.2
      /\ (r.1 = pop
          \/ exists p c' contact,
               pop !! i = Some p /\ infected p = false
               /\ c' ∈ c :: rest /\ pop !! c' = Some contact /\ infected contact = true
               /\ r.1 = <[i := set_daysInfected 1 (set_infected true p)]> pop)).
    { intros k' Hk. destruct (IH pop k') as [Hle [Heq|Hinf]].
      - split; [cbn zeta; lia | now left].
      - split; [cbn zeta; lia|]. right.
        destruct Hinf as (p & c' & contact & Hp & Hi & Hc & Hrest).
        exists p, c', contact. split; [exact Hp|]. split; [exact Hi|].
        split; [now apply elem_of_cons; right | exact Hrest]. }
    destruct (pop !! c) as [contact|] eqn:Hc; [|cbn; split; [lia | now left]].
    destruct (pop !! i) as [p|] eqn:Hp; [|cbn; split; [lia | now left]].
    destruct (infected contact) eqn:Hinf; [|apply Hrest; lia].
    destruct (PrimFloat.ltb _ _); [|apply Hrest; lia].
    destruct (infected p) eqn:Hip; cbn [negb]; [apply Hrest; lia|].
    cbn. split; [lia|]. right.
    exists p, c, contact. repeat split; auto. apply list_elem_of_here.
Qed.

Lemma contactLoop_no_case i params contacts : forall pop k,
  Forall (fun p => infected p = false) pop ->
  contactLoop random i contacts params pop k = (pop, k).
Proof.
  induction contacts as [|c rest IH]; intros pop k Hnone; cbn [contactLoop];
    [reflexivity|].
  destruct (pop !! c) as [contact|] eqn:Hc; [|reflexivity].
  destruct (pop !! i) as [p|]; [|reflexivity].
  rewrite (Forall_lookup_1 _ _ _ _ Hnone Hc). now apply IH.
Qed.

(** *** One person at a time *)

Lemma updateIndividual_spec i contacts params pop k :
  let r := updateIndividual random i contacts params pop k in
  k <= r.2
  /\ length r.1 = length pop
  /\ (forall j, j <> i -> r.1 !! j = pop !! j)
  /\ (forall p, pop !! i = Some p ->
       exists p', r.1 !! i = Some p'
                  /\ fixedFields p' = fixedFields p
                  /\ (p' = recoverIfDue params p
                      \/ (infected p' = true /\ daysInfected p' = 1))).
Proof.
  unfold updateIndividual.
  destruct (contactLoop_spec i params contacts
              (alter (recoverIfDue params) i pop) k) as [Hk [Heq|Hinf]].
  - cbn zeta. rewrite Heq. split; [exact Hk|].
    split; [apply length_alter|].
    split; [intros j Hj; now apply list_lookup_alter_ne|].
    intros p Hp. exists (recoverIfDue params p).
    rewrite list_lookup_alter_eq, Hp. split; [reflexivity|].
    split; [|now left].
    unfold fixedFields.
    now destruct (recoverIfDue_fixed params p) as (-> & -> & ->).
  - destruct Hinf as (q & c & contact & Hq & Hqi & _ & _ & _ & Heq).
    cbn zeta. rewrite Heq. split; [exact Hk|].
    split; [now rewrite length_insert, length_alter|].
    split.
    + intros j Hj. rewrite list_lookup_insert_ne by congruence.
      now apply list_lookup_alter_ne.
    + intros p Hp. rewrite list_lookup_alter_eq, Hp in Hq. injection Hq as <-.
      eexists. split.
      * apply list_lookup_insert_eq. rewrite length_alter.
        now apply lookup_lt_Some in Hp.
      * split; [|right; now split].
        unfold fixedFields. cbn.
        now destruct (recoverIfDue_fixed params p) as (-> & -> & ->).
Qed.

Lemma updateIndividual_no_case i contacts params pop k :
  Forall (fun p => infected p = false) pop ->
  updateIndividual random i contacts params pop k = (pop, k).
Proof.
  intros Hnone. unfold updateIndividual.
  rewrite alter_fixpoint.
  - now apply contactLoop_no_case.
  - intros a Ha. apply recoverIfDue_healthy.
    exact (Forall_lookup_1 _ _ _ _ Hnone Ha).
Qed.

(** *** The loop over the ring *)

Lemma ring_fold_spec params n positions : forall st,
  let r := fold_left (ringStep random params n) positions st in
  st.2 <= r.2
  /\ length r.1 = length st.1
  /\ fixedFields <$> r.1 = fixedFields <$> st.1
  /\ (Forall counter_at_rest st.1 -> Forall counter_at_rest r.1).
Proof.
  induction positions as [|i rest IH]; intros st; cbn [fold_left].
  - cbn zeta. split; [lia|]. split; [reflexivity|]. split; [reflexivity | auto].
  - destruct (IH (ringStep random params n st i)) as (Hk & Hlen & Hfix & Hrest).
    destruct (updateIndividual_spec i [(i + 1) mod n; (i + n - 1) mod n] params
                st.1 st.2) as (Hk1 & Hlen1 & Hother & Hself).
    fold (ringStep random params n st i) in Hk1, Hlen1, Hother, Hself.
    cbn zeta in *.
    split; [lia|]. split; [congruence|]. split.
    + rewrite Hfix. apply list_eq. intros j. rewrite !list_lookup_fmap.
      destruct (decide (j = i)) as [->|Hne]; [|now rewrite Hother].
      destruct (st.1 !! i) as [p|] eqn:Hp.
      * destruct (Hself p eq_refl) as (p' & -> & Hf & _). cbn. now rewrite Hf.
      * apply lookup_ge_None in Hp.
        rewrite (proj2 (lookup_ge_None _ i)); [reflexivity | lia].
    + intros Hrest0. apply Hrest. apply Forall_lookup. intros j q Hq.
      destruct (decide (j = i)) as [->|Hne].
      * destruct (st.1 !! i) as [p|] eqn:Hp.
        -- destruct (Hself p eq_refl) as (p' & Hp' & _ & [->|[Hi Hd]]).
           ++ rewrite Hp' in Hq. injection Hq as <-.
              apply recoverIfDue_rest.
              exact (Forall_lookup_1 _ _ _ _ Hrest0 Hp).
           ++ rewrite Hp' in Hq. injection Hq as <-.
              unfold counter_at_rest. congruence.
        -- apply lookup_ge_None in Hp. apply lookup_lt_Some in Hq. lia.
      * rewrite Hother in Hq by exact Hne.
        exact (Forall_lookup_1 _ _ _ _ Hrest0 Hq).
Qed.

Lemma ring_fold_no_case params n positions : forall pop k,
  Forall (fun p => infected p = false) pop ->
  fold_left (ringStep random params n) positions (pop, k) = (pop, k).
Proof.
  induction positions as [|i rest IH]; intros pop k Hnone; cbn [fold_left];
    [reflexivity|].
  unfold ringStep at 2. cbn [fst snd].
  rewrite updateIndividual_no_case by exact Hnone. now apply IH.
Qed.

(** *** A round of the ring model *)

(** [updatePopulation] of the ring model returns a population of the same
    length in which the person at each position has the [id], [x] and [y]
    of the person that was there, and it never takes a draw back. *)
Theorem ring_frame pop params k :
  length (updatePopulation random pop params k).1.1 = length pop
  /\ fixedFields <$> (updatePopulation random pop params k).1.1 = fixedFields <$> pop
  /\ k <= (updatePopulation random pop params k).2.
Proof.
  unfold updatePopulation.
  destruct (PrimFloat.leb 0.5 _).
  - cbn [fst snd negb]. split; [apply length_fmap|]. split; [|lia].
    rewrite <- list_fmap_compose. apply list_fmap_ext. intros j p _.
    unfold fixedFields. cbn.
    now destruct (recoverIfDue_fixed params p) as (-> & -> & ->).
  - cbn [negb].
    match goal with
    | |- context [fold_left (ringStep random ?q ?n) ?l ?st] =>
        destruct (ring_fold_spec q n l st) as (Hk & Hlen & Hfix & _);
        destruct (fold_left (ringStep random q n) l st) as [pop' k']
    end.
    cbn [fst snd] in *. auto.
Qed.

(** A population without a case is returned as it was, and no draw is
    made. *)
Theorem ring_without_case pop params k :
  Forall (fun p => infected p = false) pop ->
  (updatePopulation random pop params k).1.1 = pop
  /\ (updatePopulation random pop params k).2 = k.
Proof.
  intros Hnone. unfold updatePopulation.
  destruct (PrimFloat.leb 0.5 _).
  - cbn [fst snd negb]. split; [|reflexivity].
    transitivity (Datatypes.id <$> pop); [|apply list_fmap_id].
    apply list_fmap_ext. intros j p Hp.
    apply recoverIfDue_healthy. exact (Forall_lookup_1 _ _ _ _ Hnone Hp).
  - cbn [negb]. rewrite ring_fold_no_case by exact Hnone. now split.
Qed.

(** The [infectionChance] of the parameters passed in is never read: the
    population returned and the draws made are the same for every value of
    it. *)
Theorem ring_chance_ignored pop params k c :
  (updatePopulation random pop (set_infectionChance c params) k).1.1
  = (updatePopulation random pop params k).1.1
  /\ (updatePopulation random pop (set_infectionChance c params) k).2
     = (updatePopulation random pop params k).2.
Proof.
  unfold updatePopulation.
  destruct (PrimFloat.leb 0.5 _); cbn [negb fst snd]; [now split|].
  destruct (PrimFloat.ltb _ _); now split.
Qed.

(** In a round under quarantine (at least half of the population infected)
    no draw is made and the parameters are returned as passed; a person that
    is not infected is returned as it was, an infected one has recovered,
    with its counter at zero, when [recoveryTime] is reached and has aged by
    one day otherwise. *)
Theorem ring_quarantine_round pop params k j p :
  PrimFloat.leb 0.5
    (JsNumber.of_nat (length (List.filter infected pop))
     / JsNumber.of_nat (length pop))%float = true ->
  pop !! j = Some p ->
  (updatePopulation random pop params k).2 = k
  /\ (updatePopulation random pop params k).1.2 = params
  /\ exists p', (updatePopulation random pop params k).1.1 !! j = Some p'
       /\ if infected p
          then if (recoveryTime params <=? Z.of_nat (daysInfected p + 1))%Z
               then infected p' = false /\ daysInfected p' = 0
               else infected p' = true /\ daysInfected p' = daysInfected p + 1
          else p' = p.
Proof.
  intros Hq Hp. unfold updatePopulation. rewrite Hq. cbn [negb fst snd].
  split; [reflexivity|]. split; [reflexivity|].
  exists (recoverIfDue params p). rewrite list_lookup_fmap, Hp.
  split; [reflexivity|].
  unfold recoverIfDue. destruct (infected p) eqn:Hi; [|reflexivity].
  cbn. destruct (_ <=? _)%Z; cbn; auto.
Qed.

(** What [createPopulation] of the ring model returns: the persons that
    the loop has pushed, one of them turned into patient zero. *)
Lemma ring_createPopulation_base size k pop k' :
  createPopulation random size k = (inr pop, k') ->
  exists n i,
    pushes size n /\ i < n /\ k' = S k
    /\ pop = <[i := set_infected true (newPerson (PrimFloat.sqrt size) i)]>
              (newPerson (PrimFloat.sqrt size) <$> seq 0 n).
Proof.
  unfold createPopulation.
  destruct (pushLoop _ size) as [base|] eqn:Hloop; [|discriminate].
  apply pushLoop_spec in Hloop as (n & -> & Hn).
  destruct (JsNumber.get _ _) as [[i patientZero]|] eqn:Hget; [|discriminate].
  intros H. injection H as <- <-.
  apply get_lookup in Hget.
  assert (Hi : i < n).
  { apply lookup_lt_Some in Hget. now rewrite length_fmap, length_seq in Hget. }
  rewrite list_lookup_fmap, lookup_seq_lt in Hget by exact Hi.
  injection Hget as <-. now exists n, i.
Qed.

(** At every point the driver of the ring model can observe, the counter
    of a person that is not infected is at zero. *)
Theorem ring_counter_at_rest pop :
  observable random pop -> Forall counter_at_rest pop.
Proof.
  induction 1 as [size k pop k' Hcreate | pop params k _ IH].
  - destruct (ring_createPopulation_base size k pop k' Hcreate)
      as (n & i & _ & _ & _ & ->).
    apply Forall_insert.
    + apply Forall_fmap, Forall_forall. now intros j _ _.
    + unfold counter_at_rest. cbn. discriminate.
  - unfold updatePopulation.
    destruct (PrimFloat.leb 0.5 _).
    + cbn [fst snd negb]. apply Forall_fmap.
      apply (Forall_impl _ _ _ IH). intros p. apply recoverIfDue_rest.
    + cbn [negb].
      match goal with
      | |- context [fold_left (ringStep random ?q ?n) ?l ?st] =>
          destruct (ring_fold_spec q n l st) as (_ & _ & _ & Hrest);
          destruct (fold_left (ringStep random q n) l st) as [pop' k']
      end.
      cbn [fst snd] in *. now apply Hrest.
Qed.

(** On the empty population the ring model returns the empty population
    without a draw, and sets [infectionChance] to 50. *)
Theorem ring_empty_population params k :
  updatePopulation random [] params k = ([], set_infectionChance 50 params, k).
Proof. reflexivity. Qed.

Lemma filter_all_healthy (l : list person) :
  Forall (fun p => infected p = false) l -> List.filter infected l = [].
Proof.
  induction 1 as [|p l Hp _ IH]; [reflexivity|]. cbn. now rewrite Hp.
Qed.

(** When [createPopulation] of the ring model returns, it returns as many
    persons as the loop has made pushes, which is the first counter value
    that is not below [size]; the [id] of each is its position, exactly one
    of them is infected, and every counter is at zero. *)
Theorem ring_patient_zero size k pop k' :
  createPopulation random size k = (inr pop, k') ->
  pushes size (length pop)
  /\ id <$> pop = seq 0 (length pop)
  /\ length (List.filter infected pop) = 1
  /\ Forall (fun p => daysInfected p = 0) pop.
Proof.
  intros Hcreate.
  destruct (ring_createPopulation_base size k pop k' Hcreate)
    as (n & i & Hn & Hi & _ & ->).
  set (base := newPerson (PrimFloat.sqrt size) <$> seq 0 n).
  assert (Hlen : length base = n) by (unfold base; now rewrite length_fmap, length_seq).
  assert (Hget : base !! i = Some (newPerson (PrimFloat.sqrt size) i)).
  { unfold base. now rewrite list_lookup_fmap, lookup_seq_lt by exact Hi. }
  assert (Hhealthy : Forall (fun p => infected p = false) base).
  { unfold base. apply Forall_fmap, Forall_forall. now intros j _. }
  rewrite length_insert, Hlen.
  split; [exact Hn|]. split; [|split].
  - rewrite list_fmap_insert. rewrite list_insert_id.
    + unfold base. rewrite <- list_fmap_compose.
      transitivity (Datatypes.id <$> seq 0 n); [|apply list_fmap_id].
      now apply list_fmap_ext.
    + rewrite list_lookup_fmap, Hget. reflexivity.
  - rewrite insert_take_drop by lia. rewrite List.filter_app. cbn.
    rewrite (filter_all_healthy _ (Forall_take _ i _ Hhealthy)).
    rewrite (filter_all_healthy _ (Forall_drop _ (S i) _ Hhealthy)).
    reflexivity.
  - apply Forall_insert.
    + unfold base. apply Forall_fmap, Forall_forall. now intros j _.
    + reflexivity.
Qed.

End Facts.

(** *** Instances on the sample data *)

Lemma four_on_grid_created : createPopulation coin 4 0 = (inr four_on_grid, 1).
Proof. vm_compute. reflexivity. Qed.

Lemma ring_without_case_witness :
  Forall (fun p => infected p = false) pair_in_good_health
  /\ (updatePopulation coin pair_in_good_health defaultSimulationParameters 0).1.1
     = pair_in_good_health
  /\ (updatePopulation coin pair_in_good_health defaultSimulationParameters 0).2 = 0.
Proof.
  assert (Hnone : Forall (fun p => infected p = false) pair_in_good_health)
    by (repeat constructor).
  split; [exact Hnone|].
  exact (ring_without_case coin pair_in_good_health defaultSimulationParameters 0 Hnone).
Defined.

Lemma ring_quarantine_round_witness :
  PrimFloat.leb 0.5
    (JsNumber.of_nat (length (List.filter infected pair_with_a_case))
     / JsNumber.of_nat (length pair_with_a_case))%float = true
  /\ (updatePopulation coin pair_with_a_case defaultSimulationParameters 0).2 = 0
  /\ (updatePopulation coin pair_with_a_case defaultSimulationParameters 0).1.2
     = defaultSimulationParameters
  /\ exists p',
       (updatePopulation coin pair_with_a_case defaultSimulationParameters 0).1.1 !! 0
       = Some p'
       /\ infected p' = true /\ daysInfected p' = 0 + 1.
Proof.
  split; [reflexivity|].
  exact (ring_quarantine_round coin pair_with_a_case defaultSimulationParameters 0 0
           (mkPerson 0 0%float 0%float true 0) eq_refl eq_refl).
Defined.

Lemma ring_counter_at_rest_witness :
  observable coin
    (updatePopulation coin four_on_grid defaultSimulationParameters 1).1.1
  /\ Forall counter_at_rest
       (updatePopulation coin four_on_grid defaultSimulationParameters 1).1.1.
Proof.
  assert (Hobs : observable coin
            (updatePopulation coin four_on_grid defaultSimulationParameters 1).1.1).
  { apply observable_updated.
    exact (observable_created coin 4 0 four_on_grid 1 four_on_grid_created). }
  split; [exact Hobs|].
  exact (ring_counter_at_rest coin _ Hobs).
Defined.

Lemma ring_patient_zero_witness :
  createPopulation coin 4 0 = (inr four_on_grid, 1)
  /\ pushes 4 (length four_on_grid)
  /\ id <$> four_on_grid = seq 0 (length four_on_grid)
  /\ length (List.filter infected four_on_grid) = 1
  /\ Forall (fun p => daysInfected p = 0) four_on_grid.
Proof.
  split; [exact four_on_grid_created|].
  exact (ring_patient_zero coin 4 0 four_on_grid 1 four_on_grid_created).
Defined.

End SimulationOneFacts.
